(** * num2trad-cheque: the cheque-amount converter, embedded and verified

    The repository holds two copies of the converter:
    - the page script (src/unnamed/part_000), embedded in [Module Script];
    - the CSV harness (src/test-from-csv.js), embedded in [Module Harness].

    A JavaScript string is a sequence of UTF-16 code units; it is modelled
    as [list N].  Every glyph of the program lies in the Basic Multilingual
    Plane, so one glyph is one code unit and the regular expressions of the
    source (which have no [u] flag) work on exactly these units.

    JavaScript numbers are doubles.  The numbers the converter handles are
    - integers below 2^53 ([convertSection], [convertInteger]: [%], [/]
      followed by [Math.floor] and [toString] are exact there), modelled
      as [Z];
    - the result of [parseFloat] on a string that passed the pattern
      [^-?\d+(\.\d{0,2})?$], i.e. a decimal with at most two fractional
      digits.  The program only compares it with [0], [999999999999.99]
      and [100000].  Rounding to the nearest double is monotone, [0],
      [100000] and [10^12] are doubles, and the doubles around [10^12] are
      [2^-13] apart, so each of these comparisons on the rounded values
      has the outcome of the same comparison on the exact decimals.  The
      parsed value is therefore modelled exactly, as a sign and a count of
      hundredths; the sign is kept apart because [parseFloat "-0"] is the
      negative zero, which is neither [< 0] nor different from [0]. *)

From Stdlib Require Import ZArith NArith List Bool String Ascii Lia.
Import ListNotations.

Local Open Scope Z_scope.

(** ** JavaScript strings and the built-ins the converter calls *)

Module JS.

Definition str := list N.

(** Decoding of a UTF-8 byte sequence into UTF-16 code units, used only to
    write the string literals of the source readably. *)
Fixpoint utf16_of_utf8 (bs : list N) : str :=
  match bs with
  | [] => []
  | b0 :: r0 =>
    if (b0 <? 0x80)%N then b0 :: utf16_of_utf8 r0
    else if (b0 <? 0xE0)%N then
      match r0 with
      | b1 :: r1 => ((b0 mod 0x20) * 0x40 + b1 mod 0x40)%N :: utf16_of_utf8 r1
      | [] => []
      end
    else if (b0 <? 0xF0)%N then
      match r0 with
      | b1 :: b2 :: r2 =>
        ((b0 mod 0x10) * 0x1000 + (b1 mod 0x40) * 0x40 + b2 mod 0x40)%N
          :: utf16_of_utf8 r2
      | _ => []
      end
    else
      match r0 with
      | b1 :: b2 :: b3 :: r3 =>
        let cp := ((b0 mod 0x8) * 0x40000 + (b1 mod 0x40) * 0x1000
                   + (b2 mod 0x40) * 0x40 + b3 mod 0x40)%N in
        let v := (cp - 0x10000)%N in
        (0xD800 + v / 0x400)%N :: (0xDC00 + v mod 0x400)%N :: utf16_of_utf8 r3
      | _ => []
      end
  end.

Definition lit (s : string) : str :=
  utf16_of_utf8 (map N_of_ascii (list_ascii_of_string s)).

(** Code units the program names. *)
Definition c_minus : N := 45.
Definition c_plus : N := 43.
Definition c_dot : N := 46.
Definition c_comma : N := 44.
Definition c_0 : N := 48.
Definition ling : N := 0x96F6.   (* 零 *)
Definition wan : N := 0x842C.    (* 萬 *)
Definition yi : N := 0x5104.     (* 億 *)
Definition zhao : N := 0x5146.   (* 兆 *)
Definition shi : N := 0x62FE.    (* 拾 *)
Definition bai : N := 0x4F70.    (* 佰 *)
Definition qian : N := 0x4EDF.   (* 仟 *)
Definition yuan : N := 0x5713.   (* 圓 *)
Definition jiaoU : N := 0x89D2.  (* 角 *)
Definition fenU : N := 0x5206.   (* 分 *)
Definition zheng : N := 0x6574.  (* 整 *)

(** What string concatenation makes of [undefined] (a table read out of
    range, or with a key the table lacks). *)
Definition undefined : str := [117; 110; 100; 101; 102; 105; 110; 101; 100]%N.

Definition is_digit (c : N) : bool := ((48 <=? c) && (c <=? 57))%N.

(** The class [\s] of an ECMAScript regular expression: WhiteSpace and
    LineTerminator. *)
Definition is_space (c : N) : bool :=
  ((9 <=? c) && (c <=? 13) || (c =? 0x20) || (c =? 0xA0) || (c =? 0x1680)
   || (0x2000 <=? c) && (c <=? 0x200A) || (c =? 0x2028) || (c =? 0x2029)
   || (c =? 0x202F) || (c =? 0x205F) || (c =? 0x3000) || (c =? 0xFEFF))%N.

(** [s.replace(/[,\s]/g, '')] *)
Definition strip (s : str) : str :=
  filter (fun c => negb ((c =? c_comma)%N || is_space c)) s.

(** The longest prefix of digits, and what follows it. *)
Fixpoint span_digits (s : str) : str * str :=
  match s with
  | c :: t =>
    if is_digit c then let (ds, r) := span_digits t in (c :: ds, r)
    else ([], s)
  | [] => ([], [])
  end.

Definition drop_minus (s : str) : bool * str :=
  match s with
  | c :: t => if (c =? c_minus)%N then (true, t) else (false, s)
  | [] => (false, [])
  end.

(** [/^-?\d+(\.\d{0,2})?$/.test(s)].  After the optional minus the greedy
    [\d+] takes the whole run of digits (giving some back cannot help: the
    next unit would be a digit, which neither [\.] nor [$] accepts); what
    remains is empty, or a dot and at most two digits. *)
Definition test_amount (s : str) : bool :=
  let (_, s1) := drop_minus s in
  let (ds, r) := span_digits s1 in
  match ds with
  | [] => false
  | _ :: _ =>
    match r with
    | [] => true
    | c :: fr => (c =? c_dot)%N && (List.length fr <=? 2)%nat && forallb is_digit fr
    end
  end.

Definition digit_val (c : N) : Z := Z.of_N c - 48.

(** The integer a run of decimal digits denotes. *)
Definition digits_val (ds : str) : Z :=
  fold_left (fun acc c => 10 * acc + digit_val c) ds 0.

(** A parsed number: [NaN], or a sign and a magnitude counted in hundredths. *)
Inductive number : Type :=
| NaN
| Num (neg : bool) (hundredths : Z).

(** [parseFloat s], for [s] accepted by [test_amount] (the only strings the
    converter parses); on any other string the model answers [NaN]. *)
Definition parseFloat (s : str) : number :=
  if test_amount s then
    let (neg, s1) := drop_minus s in
    let (ds, r) := span_digits s1 in
    match r with
    | [] => Num neg (100 * digits_val ds)
    | _ :: fr =>
      match fr with
      | [] => Num neg (100 * digits_val ds)
      | [j] => Num neg (100 * digits_val ds + 10 * digit_val j)
      | j :: f :: _ => Num neg (100 * digits_val ds + 10 * digit_val j + digit_val f)
      end
    end
  else NaN.

(** [num < 0]: false for both zeros and for [NaN]. *)
Definition lt_zero (x : number) : bool :=
  match x with
  | Num true h => 0 <? h
  | _ => false
  end.

(** [num > bound] and [num >= bound], for a positive [bound] given in
    hundredths. *)
Definition gt_hundredths (x : number) (bound : Z) : bool :=
  match x with
  | Num false h => bound <? h
  | _ => false
  end.

Definition ge_hundredths (x : number) (bound : Z) : bool :=
  match x with
  | Num false h => bound <=? h
  | _ => false
  end.

(** [num === 0]: true for both zeros. *)
Definition is_zero (x : number) : bool :=
  match x with
  | Num _ h => h =? 0
  | NaN => false
  end.

(** [s.split('.')] *)
Fixpoint split_dot (s : str) : list str :=
  match s with
  | [] => [[]]
  | c :: t =>
    match split_dot t with
    | p :: ps => if (c =? c_dot)%N then [] :: p :: ps else (c :: p) :: ps
    | [] => [[c]]
    end
  end.

(** [parseInt(s)] in radix ten: leading white space, an optional sign, then
    the longest run of digits; [None] is [NaN].  (The [0x] prefix is left
    out: the converter calls [parseInt] on a piece of a string that passed
    the pattern, which holds a minus sign and digits only.) *)
Fixpoint skip_space (s : str) : str :=
  match s with
  | c :: t => if is_space c then skip_space t else s
  | [] => []
  end.

Definition parseInt (s : str) : option Z :=
  let s0 := skip_space s in
  let (neg, s1) :=
    match s0 with
    | c :: t =>
      if (c =? c_minus)%N then (true, t)
      else if (c =? c_plus)%N then (false, t) else (false, s0)
    | [] => (false, [])
    end in
  let (ds, _) := span_digits s1 in
  match ds with
  | [] => None
  | _ :: _ => Some (if neg then - digits_val ds else digits_val ds)
  end.

(** [num.toString()] for an integer: its decimal digits, most significant
    first.  [fuel] bounds the number of digits; [Z.log2 n + 1] is enough. *)
Fixpoint digits_fuel (fuel : nat) (n : Z) (acc : str) : str :=
  match fuel with
  | O => acc
  | S f =>
    let acc' := Z.to_N (48 + n mod 10) :: acc in
    if n / 10 =? 0 then acc' else digits_fuel f (n / 10) acc'
  end.

Definition digits (n : Z) : str :=
  digits_fuel (S (Z.to_nat (Z.log2 n))) n [].

Definition toString (n : Z) : str :=
  if n <? 0 then c_minus :: digits (- n) else digits n.

(** Truthiness of a string: [''] is the only falsy one. *)
Definition truthy (s : str) : bool :=
  match s with [] => false | _ :: _ => true end.

(** [s.trim()]: white space and line terminators are removed at both
    ends (the units [\s] matches). *)
Definition trim (s : str) : str := rev (skip_space (rev (skip_space s))).

(** [a === b] on strings. *)
Fixpoint str_eqb (a b : str) : bool :=
  match a, b with
  | [], [] => true
  | x :: a', y :: b' => (x =? y)%N && str_eqb a' b'
  | _, _ => false
  end.

(** [s.startsWith(pat)] and [s.includes(pat)]. *)
Fixpoint starts_with (pat s : str) : bool :=
  match pat, s with
  | [], _ => true
  | p :: pat', c :: s' => (p =? c)%N && starts_with pat' s'
  | _ :: _, [] => false
  end.

Fixpoint includes (s pat : str) : bool :=
  starts_with pat s
  || match s with
     | [] => false
     | _ :: t => includes t pat
     end.

(** [s.split(sep)] for a separator of one unit. *)
Fixpoint split_on (sep : N) (s : str) : list str :=
  match s with
  | [] => [[]]
  | c :: t =>
    match split_on sep t with
    | p :: ps => if (c =? sep)%N then [] :: p :: ps else (c :: p) :: ps
    | [] => [[c]]
    end
  end.

Definition c_newline : N := 10.

End JS.

Import JS.

(** ** The tables and the parts the two copies share verbatim *)

(** [units = ['', '拾', '佰', '仟']] and [bigUnits = ['', '萬', '億', '兆']],
    read at an index. *)
Definition units (i : nat) : str :=
  match i with
  | 0%nat => []
  | 1%nat => [shi]
  | 2%nat => [bai]
  | 3%nat => [qian]
  | _ => undefined
  end.

Definition bigUnits (i : nat) : str :=
  match i with
  | 0%nat => []
  | 1%nat => [wan]
  | 2%nat => [yi]
  | 3%nat => [zhao]
  | _ => undefined
  end.

(** The three replacements that end [convertInteger], the same in both
    copies. *)

(** [replace(/零+/g, '零')]: of every run of 零 only the last unit stays. *)
Fixpoint collapse_ling (s : str) : str :=
  match s with
  | [] => []
  | c :: t =>
    match t with
    | c' :: _ =>
      if ((c =? ling) && (c' =? ling))%N then collapse_ling t
      else c :: collapse_ling t
    | [] => [c]
    end
  end.

(** [replace(/零([萬億])/g, '$1')]: scanning from the left, a 零 directly
    followed by 萬 or 億 is dropped and the scan resumes after that pair. *)
Fixpoint drop_ling_before_unit (s : str) : str :=
  match s with
  | [] => []
  | c :: t =>
    match t with
    | c' :: t' =>
      if ((c =? ling) && ((c' =? wan) || (c' =? yi)))%N
      then c' :: drop_ling_before_unit t'
      else c :: drop_ling_before_unit t
    | [] => [c]
    end
  end.

(** [replace(/零+$/, '')]: the leftmost position from which only 零 follows
    up to the end starts the match, which is removed. *)
Fixpoint strip_trailing_ling (s : str) : str :=
  match s with
  | [] => []
  | c :: t =>
    if forallb (fun x => (x =? ling)%N) s then []
    else c :: strip_trailing_ling t
  end.

Definition cleanup (s : str) : str :=
  strip_trailing_ling (drop_ling_before_unit (collapse_ling s)).

(** [convertSection], whose text is the same in both copies; only the
    table [digitMap] it reads differs (叁 in the script, 參 in the harness). *)
Section Section_converter.

Variable digitMap : N -> str.

(** The [for] loop, run over the units of [numStr] that are still to be
    read: [units[len - 1 - i]] is the entry at the number of units that
    follow the current one. *)
Fixpoint section_loop (rest : str) (result : str) (zeroFlag : bool) : str :=
  match rest with
  | [] => result
  | digit :: rest' =>
    let unit := units (List.length rest') in
    if (digit =? c_0)%N then section_loop rest' result true
    else
      let result1 :=
        if zeroFlag && truthy result then result ++ [ling] else result in
      section_loop rest' (result1 ++ digitMap digit ++ unit) false
  end.

Definition convertSection_with (num : Z) : str :=
  if num =? 0 then [] else section_loop (toString num) [] false.

End Section_converter.

(** The tail of [convertToChequeFormat] that pads the fraction:
    [while (decimalPart.length < 2) decimalPart += '0']. *)
Definition pad2 (decimalPart : str) : str :=
  decimalPart ++ repeat c_0 (2 - List.length decimalPart).

(** The unit of a string at an index, as a string ([undefined] past the
    end never arises: the callers index a string of length at least 2). *)
Definition char_at (s : str) (i : nat) : N := nth i s 0%N.

(** ** The page script (src/unnamed/part_000) *)

Module Script.

Definition digitMap (key : N) : str :=
  match key with
  | 48 => [ling]
  | 49 => [0x58F9]   (* 壹 *)
  | 50 => [0x8CB3]   (* 貳 *)
  | 51 => [0x53C1]   (* 叁 *)
  | 52 => [0x8086]   (* 肆 *)
  | 53 => [0x4F0D]   (* 伍 *)
  | 54 => [0x9678]   (* 陸 *)
  | 55 => [0x67D2]   (* 柒 *)
  | 56 => [0x634C]   (* 捌 *)
  | 57 => [0x7396]   (* 玖 *)
  | _ => undefined
  end%N.

Definition convertSection : Z -> str := convertSection_with digitMap.

(** The [while (num > 0)] loop of [convertInteger]; every round divides
    [num] by 10000, so [fuel] rounds suffice once [num < 2^fuel]. *)
Fixpoint integer_loop (fuel : nat) (num : Z) (unitIndex : nat) (result : str)
  : str :=
  match fuel with
  | O => result
  | S fuel' =>
    if 0 <? num then
      let section := num mod 10000 in
      let nextNum := num / 10000 in
      let result' :=
        if 0 <? section then
          let sectionStr := convertSection section in
          if (0 <? nextNum) && (section <? 1000)
          then [ling] ++ sectionStr ++ bigUnits unitIndex ++ result
          else sectionStr ++ bigUnits unitIndex ++ result
        else
          if 0 <? nextNum then bigUnits unitIndex ++ result else result in
      integer_loop fuel' nextNum (S unitIndex) result'
    else result
  end.

Definition convertInteger (num : Z) : str :=
  if num =? 0 then [ling]
  else cleanup (integer_loop (S (Z.to_nat (Z.log2 num))) num 0 []).

Definition msg_empty : str := lit "請輸入金額".
Definition msg_format : str := lit "輸入格式錯誤（請輸入有效數字）".
Definition msg_negative : str := lit "不支持負數".
Definition msg_too_large : str := lit "金額過大（最大支持 999,999,999,999.99）".
Definition msg_zero : str := lit "零圓整".

(** [999999999999.99] in hundredths. *)
Definition max_hundredths : Z := 99999999999999.

Definition fraction_text (decimalPart : str) : str :=
  if truthy decimalPart then
    let decimalPart := pad2 decimalPart in
    let jiao := char_at decimalPart 0 in
    let fen := char_at decimalPart 1 in
    if negb (jiao =? c_0)%N then
      digitMap jiao ++ [jiaoU]
        ++ (if negb (fen =? c_0)%N then digitMap fen ++ [fenU] else [])
    else
      if negb (fen =? c_0)%N then [ling] ++ digitMap fen ++ [fenU] else []
  else [zheng].

Definition convertToChequeFormat (numStr : str) : str :=
  let numStr := strip numStr in
  if negb (truthy numStr) then msg_empty
  else if negb (test_amount numStr) then msg_format
  else
    let num := parseFloat numStr in
    if lt_zero num then msg_negative
    else if gt_hundredths num max_hundredths then msg_too_large
    else if is_zero num then msg_zero
    else
      let parts := split_dot numStr in
      let integerPart := parseInt (nth 0 parts []) in
      let decimalPart := nth 1 parts [] in
      let result :=
        match integerPart with
        | Some n => convertInteger n
        | None => []   (* convertInteger(NaN): no round of the loop runs *)
        end ++ [yuan] in
      result ++ fraction_text decimalPart.

(** The handlers the page installs.  Of the page they touch the text of
    the result element and whether its class list holds [error]; the
    clipboard either receives a text or the user is alerted. *)
Record result_view : Type := {
  textContent : str;
  error_class : bool
}.

Definition is_error_text (text : str) : bool :=
  includes text (lit "錯誤") || includes text (lit "不支持")
  || includes text (lit "過大").

(** The [input] listener: the value is trimmed, converted and shown, and
    the class [error] is added or removed after the text. *)
Definition on_input (value : str) : result_view :=
  let value := trim value in
  let text := convertToChequeFormat value in
  {| textContent := text; error_class := is_error_text text |}.

(** The [click] listener of an example: the value is converted as it
    stands and the class [error] is removed. *)
Definition on_example (value : str) : result_view :=
  {| textContent := convertToChequeFormat value; error_class := false |}.



End Script.

(** ** The CSV harness (src/test-from-csv.js) *)

Module Harness.

Definition digitMap (key : N) : str :=
  match key with
  | 48 => [ling]
  | 49 => [0x58F9]   (* 壹 *)
  | 50 => [0x8CB3]   (* 貳 *)
  | 51 => [0x53C3]   (* 參 *)
  | 52 => [0x8086]   (* 肆 *)
  | 53 => [0x4F0D]   (* 伍 *)
  | 54 => [0x9678]   (* 陸 *)
  | 55 => [0x67D2]   (* 柒 *)
  | 56 => [0x634C]   (* 捌 *)
  | 57 => [0x7396]   (* 玖 *)
  | _ => undefined
  end%N.

Definition convertSection : Z -> str := convertSection_with digitMap.

(** [while (tempNum > 0) { sections.push(tempNum % 10000); ... }] *)
Fixpoint sections_loop (fuel : nat) (tempNum : Z) : list Z :=
  match fuel with
  | O => []
  | S fuel' =>
    if 0 <? tempNum
    then tempNum mod 10000 :: sections_loop fuel' (tempNum / 10000)
    else []
  end.

(** [for (let j = i - 1; j >= 0; j--) if (sections[j] > 0) ...], with
    [i] the argument. *)
Fixpoint hasNonZeroAfter (sections : list Z) (i : nat) : bool :=
  match i with
  | O => false
  | S j => if 0 <? nth j sections 0 then true else hasNonZeroAfter sections j
  end.

(** [for (let i = sections.length - 1; i >= 0; i--)], with [i + 1] the
    argument [k]. *)
Fixpoint integer_loop (sections : list Z) (k : nat) (result : str) : str :=
  match k with
  | O => result
  | S i =>
    let section := nth i sections 0 in
    let sectionStr := convertSection section in
    let result' :=
      if 0 <? section then
        let result1 :=
          if (i <? List.length sections - 1)%nat && (section <? 1000)
             && truthy result
          then result ++ [ling] else result in
        result1 ++ sectionStr ++ bigUnits i
      else
        if (0 <? i)%nat && truthy result then
          if hasNonZeroAfter sections i && (0 <? i)%nat
             && (0 <? nth (i - 1) sections 0)
             && (nth (i - 1) sections 0 <? 1000)
          then result ++ [ling] else result
        else result in
    integer_loop sections i result'
  end.

Definition convertInteger (num : Z) : str :=
  if num =? 0 then [ling]
  else
    let sections := sections_loop (S (Z.to_nat (Z.log2 num))) num in
    cleanup (integer_loop sections (List.length sections) []).

Definition msg_empty : str := lit "請輸入金額".
Definition msg_format : str := lit "輸入格式錯誤（請輸入有效數字）".
Definition msg_negative : str := lit "不支持負數".
Definition msg_too_large : str := lit "超過最大支持金額（99999.99）".
Definition msg_zero : str := lit "零圓整".

(** [100000] in hundredths. *)
Definition limit_hundredths : Z := 10000000.

Definition fraction_text (decimalPart : str) : str :=
  if truthy decimalPart then
    let decimalPart := pad2 decimalPart in
    let jiao := char_at decimalPart 0 in
    let fen := char_at decimalPart 1 in
    if (jiao =? c_0)%N && (fen =? c_0)%N then [zheng]
    else if negb (jiao =? c_0)%N then
      digitMap jiao ++ [jiaoU]
        ++ (if negb (fen =? c_0)%N then digitMap fen ++ [fenU] else [])
    else
      if negb (fen =? c_0)%N then [ling] ++ digitMap fen ++ [fenU] else []
  else [zheng].

Definition convertToChequeFormat (numStr : str) : str :=
  let numStr := strip numStr in
  if negb (truthy numStr) then msg_empty
  else if negb (test_amount numStr) then msg_format
  else
    let num := parseFloat numStr in
    if lt_zero num then msg_negative
    else if ge_hundredths num limit_hundredths then msg_too_large
    else if is_zero num then msg_zero
    else
      let parts := split_dot numStr in
      let integerPart := parseInt (nth 0 parts []) in
      let decimalPart := nth 1 parts [] in
      let result :=
        match integerPart with
        | Some n => convertInteger n
        | None => []   (* convertInteger(NaN): no section is pushed *)
        end ++ [yuan] in
      result ++ fraction_text decimalPart.

(** [parseCSV], on the content [fs.readFileSync] returned. *)
Record testCase : Type := {
  input : str;
  expected : str
}.

(** The body of the [for] loop, for the lines from index 1 on. *)
Fixpoint parseCSV_loop (lines : list str) : list testCase :=
  match lines with
  | [] => []
  | raw :: rest =>
    let line := trim raw in
    if negb (truthy line) then parseCSV_loop rest
    else
      let parts := split_on c_comma line in
      if (2 <=? List.length parts)%nat
      then {| input := trim (nth 0 parts []);
              expected := trim (nth 1 parts []) |} :: parseCSV_loop rest
      else parseCSV_loop rest
  end.

Definition parseCSV (content : str) : list testCase :=
  let lines := split_on c_newline (trim content) in
  parseCSV_loop (tl lines).

(** [runTests], without what it prints: the counters, the list of
    failed cases and the exit code. *)
Record failure : Type := {
  index : nat;
  failed_input : str;
  failed_expected : str;
  actual : str
}.

Record tally : Type := {
  passed : nat;
  failed : nat;
  failedCases : list failure
}.

(** [testCases.forEach((testCase, index) => ...)], from [index] on. *)
Fixpoint run_cases (testCases : list testCase) (index : nat) (t : tally)
  : tally :=
  match testCases with
  | [] => t
  | testCase :: rest =>
    let actual := convertToChequeFormat (input testCase) in
    let isPass := str_eqb actual (expected testCase) in
    let t' :=
      if isPass
      then {| passed := S (passed t); failed := failed t;
              failedCases := failedCases t |}
      else {| passed := passed t; failed := S (failed t);
              failedCases :=
                failedCases t
                  ++ [{| index := index + 1;
                         failed_input := input testCase;
                         failed_expected := expected testCase;
                         actual := actual |}] |} in
    run_cases rest (S index) t'
  end.

Definition exit_code (t : tally) : Z :=
  if (failed t =? 0)%nat then 0 else 1.

Definition runTests (content : str) : tally :=
  run_cases (parseCSV content) 0
    {| passed := 0; failed := 0; failedCases := [] |}.

End Harness.

(** ** Vocabulary of the properties *)

(** Some two neighbouring units of [s] satisfy [p]. *)
Fixpoint has_adjacent (p : N -> N -> bool) (s : str) : bool :=
  match s with
  | [] => false
  | c :: t =>
    match t with
    | c' :: _ => p c c' || has_adjacent p t
    | [] => false
    end
  end.

Definition is_ling (c : N) : bool := (c =? ling)%N.
Definition is_big_unit (c : N) : bool := ((c =? wan) || (c =? yi))%N.
Definition double_ling (a b : N) : bool := is_ling a && is_ling b.
Definition ling_then_unit (a b : N) : bool := is_ling a && is_big_unit b.

(** The last unit of a string is a 零. *)
Definition ends_with_ling (s : str) : bool := is_ling (last s 0%N).

(** The first unit of a string, [0] when there is none. *)
Definition first_unit (s : str) : N := hd 0%N s.

(** No unit of the string is a 零. *)
Definition ling_free (s : str) : bool := forallb (fun c => negb (is_ling c)) s.

(** What [convertSection] keeps true of [result] all along its loop. *)
Definition tidy (s : str) : Prop :=
  has_adjacent double_ling s = false /\ ends_with_ling s = false.

(** The strings the pattern accepts, put together from their parts: an
    optional minus, the integer digits, and an optional dot with the
    fractional digits. *)
Definition amount_text (neg : bool) (ds : str) (frac : option str) : str :=
  (if neg then [c_minus] else [])
    ++ ds ++ match frac with Some fr => c_dot :: fr | None => [] end.

Definition well_formed (ds : str) (frac : option str) : Prop :=
  truthy ds = true /\ forallb is_digit ds = true
  /\ match frac with
     | Some fr => forallb is_digit fr = true /\ (List.length fr <= 2)%nat
     | None => True
     end.

(** The hundredths the fractional digits stand for. *)
Definition frac_val (frac : option str) : Z :=
  match frac with
  | Some [j] => 10 * digit_val j
  | Some (j :: f :: _) => 10 * digit_val j + digit_val f
  | _ => 0
  end.

(** The amount such a string denotes, in hundredths. *)
Definition amount_hundredths (ds : str) (frac : option str) : Z :=
  100 * digits_val ds + frac_val frac.

Definition frac_digits (frac : option str) : str :=
  match frac with Some fr => fr | None => [] end.

(** A string the three replacements have nothing to do on. *)
Definition neat (s : str) : Prop :=
  has_adjacent double_ling s = false
  /\ has_adjacent ling_then_unit s = false
  /\ ends_with_ling s = false.

(** What the text of a non-zero group is checked for: it is not empty,
    starts neither with 零 nor with 萬/億, and is neat. *)
Definition section_text_ok (t : str) : bool :=
  truthy t && negb (is_ling (first_unit t))
  && negb (is_big_unit (first_unit t))
  && negb (has_adjacent double_ling t)
  && negb (has_adjacent ling_then_unit t)
  && negb (ends_with_ling t).

(** In the script's loop over [num]: what the rounds for the groups of
    index [k] and above write, and what the first [k] rounds have
    written. *)
Definition Script_groups_from (num : Z) (k : nat) : str :=
  Script.integer_loop (S (Z.to_nat (Z.log2 num)))
    (num / 10000 ^ Z.of_nat k) k [].

Definition Script_groups_below (num : Z) (k : nat) : str :=
  Script.integer_loop k num 0 [].

(** What one round of the script's loop writes for the group of index
    [k] and value [g], [higher] telling whether a non-zero group lies
    above it. *)
Definition Script_piece (k : nat) (g : Z) (higher : bool) : str :=
  if 0 <? g then
    (if higher && (g <? 1000) then [ling] else [])
      ++ Script.convertSection g ++ bigUnits k
  else if higher then bigUnits k else [].

(** Reading an amount back from the script's text, one unit at a time.
    The state is the hundredths read so far, the value of the current
    group without its last digit, and the last digit read. *)
Definition glyph_digit (c : N) : option Z :=
  match c with
  | 0x96F6 => Some 0%Z
  | 0x58F9 => Some 1%Z
  | 0x8CB3 => Some 2%Z
  | 0x53C1 => Some 3%Z
  | 0x8086 => Some 4%Z
  | 0x4F0D => Some 5%Z
  | 0x9678 => Some 6%Z
  | 0x67D2 => Some 7%Z
  | 0x634C => Some 8%Z
  | 0x7396 => Some 9%Z
  | _ => None
  end%N.

Definition reading : Type := (Z * Z * Z)%type.

Definition read_unit (st : reading) (c : N) : reading :=
  let '(total, group, digit) := st in
  if (c =? shi)%N then (total, group + 10 * digit, 0)
  else if (c =? bai)%N then (total, group + 100 * digit, 0)
  else if (c =? qian)%N then (total, group + 1000 * digit, 0)
  else if (c =? wan)%N then (total + 1000000 * (group + digit), 0, 0)
  else if (c =? yi)%N then (total + 10000000000 * (group + digit), 0, 0)
  else if (c =? yuan)%N then (total + 100 * (group + digit), 0, 0)
  else if (c =? jiaoU)%N then (total + 10 * digit, 0, 0)
  else if (c =? fenU)%N then (total + digit, 0, 0)
  else
    match glyph_digit c with
    | Some d => (total, group, d)
    | None => (total, group, digit)
    end.

Definition read_from (st : reading) (s : str) : reading :=
  fold_left read_unit s st.

Definition read_hundredths (s : str) : Z := fst (fst (read_from (0, 0, 0) s)).

(** A unit that closes no group and no amount: reading it leaves the
    hundredths read so far alone. *)
Definition inner_unit (c : N) : bool :=
  negb ((c =? wan) || (c =? yi) || (c =? yuan) || (c =? jiaoU) || (c =? fenU))%N.

(** The text of a group is made of inner units and reads as the group. *)
Definition section_reads (g : Z) (t : str) : bool :=
  forallb inner_unit t
  && let '(total, group, digit) := read_from (0, 0, 0) t in
     (total =? 0) && (group + digit =? g).

(** The two halves of an accepted string. *)
Definition amount_head (neg : bool) (ds : str) : str :=
  (if neg then [c_minus] else []) ++ ds.

Definition amount_tail (frac : option str) : str :=
  match frac with Some fr => c_dot :: fr | None => [] end.

(** What the harness's loop writes for the group of index [k] and value
    [g]: as the script, but nothing for a group that is zero. *)
Definition Harness_piece (k : nat) (g : Z) (higher : bool) : str :=
  if 0 <? g then
    (if higher && (g <? 1000) then [ling] else [])
      ++ Harness.convertSection g ++ bigUnits k
  else [].

(** The group of index [k] of [n], counted from the least significant
    one, and what the harness writes for it, for the groups from index [k]
    up to the third, and for the groups below index [k] (the most
    significant first). *)
Definition group_of (n : Z) (k : nat) : Z := (n / 10000 ^ Z.of_nat k) mod 10000.

Definition Harness_group_text (n : Z) (k : nat) : str :=
  Harness_piece k (group_of n k) (0 <? n / 10000 ^ Z.of_nat (S k)).

Definition Harness_groups_from (n : Z) (k : nat) : str :=
  List.concat (map (Harness_group_text n) (rev (seq k (3 - k)))).

Definition Harness_groups_below (n : Z) (k : nat) : str :=
  List.concat (map (Harness_group_text n) (rev (seq 0 k))).

(** The glyphs a cheque amount is written with: the ten digits, the units
    拾 佰 仟 萬 億, and 圓 角 分 整. *)
Definition cheque_glyph (c : N) : bool :=
  match glyph_digit c with
  | Some _ => true
  | None =>
    ((c =? shi) || (c =? bai) || (c =? qian) || (c =? wan) || (c =? yi)
     || (c =? yuan) || (c =? jiaoU) || (c =? fenU) || (c =? zheng))%N
  end.

Definition glyphs_only (s : str) : bool := forallb cheque_glyph s.

(** The harness writes 參 where the script writes 叁. *)
Definition harness_glyph (c : N) : N := if (c =? 0x53C1)%N then 0x53C3%N else c.

Definition as_harness (s : str) : str := map harness_glyph s.

(** A field of the fixture with no comma, no line feed and no white
    space at either end. *)
Definition clean_field (f : str) : Prop :=
  ~ In c_comma f /\ ~ In c_newline f /\ trim f = f.

(** White space removed at the end only. *)
Definition trim_end (s : str) : str := rev (skip_space (rev s)).

(** The harness's conversion of the case's input is the expected text. *)
Definition case_passes (tc : Harness.testCase) : Prop :=
  Harness.convertToChequeFormat (Harness.input tc) = Harness.expected tc.

(** ** Lists: neighbours across an append *)

Lemma str_ind2 (P : str -> Prop) :
  P [] -> (forall c, P [c]) ->
  (forall c c' t, P t -> P (c' :: t) -> P (c :: c' :: t)) ->
  forall s, P s.
Proof.
  intros H0 H1 H2 s.
  assert (H : P s /\ forall c, P (c :: s)).
  { induction s as [|a s [IHa IHb]].
    - split; [exact H0 | exact H1].
    - split; [apply IHb | intro c; apply H2; [exact IHa | apply IHb]]. }
  exact (proj1 H).
Qed.

Lemma has_adjacent_cons p c s :
  has_adjacent p (c :: s) =
  match s with
  | c' :: _ => p c c' || has_adjacent p s
  | [] => false
  end.
Proof. reflexivity. Qed.

Lemma has_adjacent_app p s t :
  has_adjacent p (s ++ t) =
  has_adjacent p s
  || match s, t with
     | _ :: _, c' :: _ => p (last s 0%N) c'
     | _, _ => false
     end
  || has_adjacent p t.
Proof.
  induction s as [|c s IH]; [reflexivity|].
  destruct s as [|c1 s].
  - destruct t as [|c' t]; [reflexivity|].
    reflexivity.
  - change ((c :: c1 :: s) ++ t) with (c :: (c1 :: s) ++ t).
    rewrite has_adjacent_cons.
    change ((c1 :: s) ++ t) with (c1 :: s ++ t) at 1.
    cbv beta iota. rewrite IH.
    rewrite (has_adjacent_cons p c (c1 :: s)).
    change (last (c :: c1 :: s) 0%N) with (last (c1 :: s) 0%N).
    destruct t as [|c' t]; now rewrite !orb_assoc.
Qed.

(** The boolean test agrees with the decomposition it stands for. *)
Lemma has_adjacent_false_iff p s :
  has_adjacent p s = false <->
  forall a x y b, s = a ++ x :: y :: b -> p x y = false.
Proof.
  split.
  - intros H a x y b ->.
    rewrite has_adjacent_app in H.
    apply orb_false_elim in H as [_ H].
    rewrite has_adjacent_cons in H.
    now apply orb_false_elim in H as [H _].
  - induction s as [|c s IH]; intro H; [reflexivity|].
    destruct s as [|c' s]; [reflexivity|].
    rewrite has_adjacent_cons. apply orb_false_intro.
    + exact (H [] c c' s eq_refl).
    + apply IH. intros a x y b E. apply (H (c :: a) x y b).
      now rewrite E.
Qed.

Lemma has_adjacent_cons_hd p c s :
  has_adjacent p (c :: s) =
  (truthy s && p c (first_unit s)) || has_adjacent p s.
Proof. destruct s; reflexivity. Qed.

Lemma has_adjacent_prefix p s t :
  has_adjacent p (s ++ t) = false -> has_adjacent p s = false.
Proof.
  rewrite has_adjacent_app. intro H.
  apply orb_false_elim in H as [H _].
  now apply orb_false_elim in H as [H _].
Qed.

Lemma last_cons_truthy (c : N) s :
  truthy s = true -> last (c :: s) 0%N = last s 0%N.
Proof. destruct s; [discriminate | reflexivity]. Qed.

Lemma big_unit_not_ling c : is_big_unit c = true -> is_ling c = false.
Proof.
  unfold is_big_unit, is_ling. intro H.
  apply orb_true_iff in H as [H | H]; apply N.eqb_eq in H; now subst.
Qed.

(** ** The three replacements *)

Lemma collapse_ling_eq c c' t :
  collapse_ling (c :: c' :: t) =
  if double_ling c c' then collapse_ling (c' :: t)
  else c :: collapse_ling (c' :: t).
Proof. reflexivity. Qed.

Lemma collapse_ling_first s : first_unit (collapse_ling s) = first_unit s.
Proof.
  induction s as [|c s IH]; [reflexivity|].
  destruct s as [|c' t]; [reflexivity|].
  rewrite collapse_ling_eq. destruct (double_ling c c') eqn:E; [|reflexivity].
  rewrite IH. unfold double_ling, is_ling in E.
  apply andb_true_iff in E as [E1 E2].
  apply N.eqb_eq in E1, E2. simpl. congruence.
Qed.

Lemma collapse_ling_truthy s : truthy (collapse_ling s) = truthy s.
Proof.
  induction s as [|c s IH]; [reflexivity|].
  destruct s as [|c' t]; [reflexivity|].
  rewrite collapse_ling_eq. destruct (double_ling c c'); [exact IH | reflexivity].
Qed.

Lemma collapse_ling_no_double s :
  has_adjacent double_ling (collapse_ling s) = false.
Proof.
  induction s as [|c s IH]; [reflexivity|].
  destruct s as [|c' t]; [reflexivity|].
  rewrite collapse_ling_eq. destruct (double_ling c c') eqn:E; [exact IH|].
  rewrite has_adjacent_cons_hd, IH, collapse_ling_first. simpl first_unit.
  rewrite E. now rewrite andb_false_r.
Qed.

Lemma collapse_ling_fixed s :
  has_adjacent double_ling s = false -> collapse_ling s = s.
Proof.
  induction s as [|c s IH]; [reflexivity|].
  destruct s as [|c' t]; [reflexivity|].
  rewrite has_adjacent_cons. intro H.
  apply orb_false_elim in H as [H1 H2].
  rewrite collapse_ling_eq, H1. now rewrite IH.
Qed.

Lemma drop_ling_eq c c' t :
  drop_ling_before_unit (c :: c' :: t) =
  if ling_then_unit c c' then c' :: drop_ling_before_unit t
  else c :: drop_ling_before_unit (c' :: t).
Proof. reflexivity. Qed.

Lemma drop_ling_truthy s : truthy (drop_ling_before_unit s) = truthy s.
Proof.
  destruct s as [|c [|c' t]]; try reflexivity.
  rewrite drop_ling_eq. now destruct (ling_then_unit c c').
Qed.

(** The first unit after the second replacement is the old first unit, or
    the 萬/億 that followed a dropped 零. *)
Lemma drop_ling_first s :
  first_unit (drop_ling_before_unit s) = first_unit s
  \/ (is_ling (first_unit s) = true
      /\ is_big_unit (first_unit (drop_ling_before_unit s)) = true).
Proof.
  destruct s as [|c [|c' t]]; try (left; reflexivity).
  rewrite drop_ling_eq. destruct (ling_then_unit c c') eqn:E.
  - right. apply andb_true_iff in E. exact E.
  - left. reflexivity.
Qed.

Lemma drop_ling_no_double s :
  has_adjacent double_ling s = false ->
  has_adjacent double_ling (drop_ling_before_unit s) = false.
Proof.
  induction s as [| c | c c' t IHt IHc] using str_ind2;
    try reflexivity.
  intro H. rewrite has_adjacent_cons in H.
  apply orb_false_elim in H as [H1 H2].
  rewrite drop_ling_eq. destruct (ling_then_unit c c') eqn:E.
  - apply andb_true_iff in E as [_ E]. apply big_unit_not_ling in E.
    rewrite has_adjacent_cons_hd. unfold double_ling at 1. rewrite E.
    rewrite andb_false_r. apply IHt.
    rewrite has_adjacent_cons_hd in H2. now apply orb_false_elim in H2.
  - rewrite has_adjacent_cons_hd, (IHc H2), orb_false_r.
    destruct (drop_ling_first (c' :: t)) as [F | [_ F]].
    + rewrite F. simpl first_unit. rewrite H1. apply andb_false_r.
    + apply big_unit_not_ling in F. unfold double_ling. rewrite F.
      now rewrite !andb_false_r.
Qed.

Lemma drop_ling_no_ling_unit s :
  has_adjacent double_ling s = false ->
  has_adjacent ling_then_unit (drop_ling_before_unit s) = false.
Proof.
  induction s as [| c | c c' t IHt IHc] using str_ind2;
    try reflexivity.
  intro H. rewrite has_adjacent_cons in H.
  apply orb_false_elim in H as [H1 H2].
  rewrite drop_ling_eq. destruct (ling_then_unit c c') eqn:E.
  - apply andb_true_iff in E as [_ E]. apply big_unit_not_ling in E.
    rewrite has_adjacent_cons_hd. unfold ling_then_unit at 1. rewrite E.
    rewrite andb_false_l, andb_false_r. apply IHt.
    rewrite has_adjacent_cons_hd in H2. now apply orb_false_elim in H2.
  - rewrite has_adjacent_cons_hd, (IHc H2), orb_false_r.
    destruct (drop_ling_first (c' :: t)) as [F | [F _]].
    + rewrite F. simpl first_unit. rewrite E. apply andb_false_r.
    + simpl first_unit in F. unfold double_ling in H1. rewrite F in H1.
      rewrite andb_true_r in H1. unfold ling_then_unit. rewrite H1.
      apply andb_false_r.
Qed.

Lemma drop_ling_fixed s :
  has_adjacent ling_then_unit s = false -> drop_ling_before_unit s = s.
Proof.
  induction s as [|c s IH]; [reflexivity|].
  destruct s as [|c' t]; [reflexivity|].
  rewrite has_adjacent_cons. intro H.
  apply orb_false_elim in H as [H1 H2].
  rewrite drop_ling_eq, H1. now rewrite IH.
Qed.

Lemma strip_trailing_eq c t :
  strip_trailing_ling (c :: t) =
  if forallb is_ling (c :: t) then [] else c :: strip_trailing_ling t.
Proof. reflexivity. Qed.

Lemma strip_trailing_prefix s :
  exists r, s = strip_trailing_ling s ++ r.
Proof.
  induction s as [|c t [r IH]]; [now exists []|].
  rewrite strip_trailing_eq. destruct (forallb is_ling (c :: t)).
  - now exists (c :: t).
  - exists r. simpl. now rewrite <- IH.
Qed.

Lemma strip_trailing_nil s :
  strip_trailing_ling s = [] -> forallb is_ling s = true.
Proof.
  destruct s as [|c t]; [reflexivity|].
  rewrite strip_trailing_eq.
  destruct (forallb is_ling (c :: t)); [reflexivity | discriminate].
Qed.

Lemma strip_trailing_end s :
  ends_with_ling (strip_trailing_ling s) = false.
Proof.
  induction s as [|c t IH]; [reflexivity|].
  rewrite strip_trailing_eq. destruct (forallb is_ling (c :: t)) eqn:E;
    [reflexivity|].
  unfold ends_with_ling in *.
  destruct (strip_trailing_ling t) as [|d u] eqn:Et.
  - apply strip_trailing_nil in Et. simpl in E. rewrite Et in E.
    rewrite andb_true_r in E. exact E.
  - now rewrite last_cons_truthy.
Qed.

Lemma all_ling_end s :
  forallb is_ling s = true -> truthy s = true -> ends_with_ling s = true.
Proof.
  unfold ends_with_ling.
  induction s as [|c t IH]; [discriminate|]. intros H _.
  simpl in H. apply andb_true_iff in H as [Hc Ht].
  destruct t as [|d u]; [exact Hc|].
  rewrite last_cons_truthy by reflexivity. now apply IH.
Qed.

Lemma strip_trailing_fixed s :
  ends_with_ling s = false -> strip_trailing_ling s = s.
Proof.
  induction s as [|c t IH]; [reflexivity|]. intro H.
  rewrite strip_trailing_eq. destruct (forallb is_ling (c :: t)) eqn:E.
  - apply all_ling_end in E; [congruence | reflexivity].
  - f_equal. destruct t as [|d u]; [reflexivity|]. apply IH.
    unfold ends_with_ling in *. now rewrite last_cons_truthy in H.
Qed.

(** What [cleanup] guarantees of its result, whatever the string. *)
Lemma cleanup_no_double s : has_adjacent double_ling (cleanup s) = false.
Proof.
  unfold cleanup.
  destruct (strip_trailing_prefix (drop_ling_before_unit (collapse_ling s)))
    as [r E].
  apply (has_adjacent_prefix _ _ r). rewrite <- E.
  apply drop_ling_no_double, collapse_ling_no_double.
Qed.

Lemma cleanup_no_ling_unit s : has_adjacent ling_then_unit (cleanup s) = false.
Proof.
  unfold cleanup.
  destruct (strip_trailing_prefix (drop_ling_before_unit (collapse_ling s)))
    as [r E].
  apply (has_adjacent_prefix _ _ r). rewrite <- E.
  apply drop_ling_no_ling_unit, collapse_ling_no_double.
Qed.

Lemma cleanup_end s : ends_with_ling (cleanup s) = false.
Proof. apply strip_trailing_end. Qed.

(** A string with no 零零, no 零 before 萬/億 and no final 零 is left as
    it is. *)
Lemma cleanup_fixed s :
  has_adjacent double_ling s = false ->
  has_adjacent ling_then_unit s = false ->
  ends_with_ling s = false ->
  cleanup s = s.
Proof.
  intros H1 H2 H3. unfold cleanup.
  now rewrite (collapse_ling_fixed _ H1), (drop_ling_fixed _ H2),
    (strip_trailing_fixed _ H3).
Qed.

(** C7. The three replacements that end [convertInteger] (runs of 零
    collapsed to one, 零 dropped before 萬 or 億, final 零 removed), taken
    together as one function on strings, are idempotent: on every string,
    applying them twice gives what applying them once gives. *)
Theorem cleanup_idempotent (s : str) : cleanup (cleanup s) = cleanup s.
Proof.
  apply cleanup_fixed.
  - apply cleanup_no_double.
  - apply cleanup_no_ling_unit.
  - apply cleanup_end.
Qed.

(** ** [convertSection] *)

Lemma ends_with_ling_false_iff s :
  ends_with_ling s = false <-> forall a, s <> a ++ [ling].
Proof.
  unfold ends_with_ling, is_ling. split.
  - intros H a ->. rewrite last_last in H. now rewrite N.eqb_refl in H.
  - intro H. destruct (last s 0%N =? ling)%N eqn:E; [|reflexivity].
    apply N.eqb_eq in E. destruct s as [|c t] using rev_ind; [discriminate E|].
    rewrite last_last in E. subst. now destruct (H t).
Qed.

Lemma ling_free_app s t : ling_free (s ++ t) = ling_free s && ling_free t.
Proof. apply forallb_app. Qed.

Lemma ling_free_first s :
  ling_free s = true -> is_ling (first_unit s) = false.
Proof.
  destruct s as [|c t]; [reflexivity|]. simpl. intro H.
  apply andb_true_iff in H as [H _]. now apply negb_true_iff in H.
Qed.

Lemma ling_free_last s :
  ling_free s = true -> ends_with_ling s = false.
Proof.
  unfold ends_with_ling.
  induction s as [|c t IH]; [reflexivity|]. simpl ling_free. intro H.
  apply andb_true_iff in H as [Hc Ht].
  destruct t as [|d u]; [now apply negb_true_iff in Hc|].
  rewrite last_cons_truthy by reflexivity. now apply IH.
Qed.

Lemma ling_free_no_double s :
  ling_free s = true -> has_adjacent double_ling s = false.
Proof.
  induction s as [|c t IH]; [reflexivity|]. simpl ling_free. intro H.
  apply andb_true_iff in H as [Hc Ht]. apply negb_true_iff in Hc.
  rewrite has_adjacent_cons_hd, (IH Ht). unfold double_ling. rewrite Hc.
  now rewrite andb_false_r.
Qed.

Lemma ends_with_ling_app s t :
  truthy t = true -> ends_with_ling (s ++ t) = ends_with_ling t.
Proof.
  unfold ends_with_ling. intro H.
  induction s as [|c s IH]; [reflexivity|].
  change ((c :: s) ++ t) with (c :: s ++ t).
  rewrite last_cons_truthy; [exact IH|]. destruct s; [exact H | reflexivity].
Qed.

Lemma double_ling_right a b : is_ling b = false -> double_ling a b = false.
Proof. unfold double_ling. intros ->. apply andb_false_r. Qed.

Lemma double_ling_left a b : is_ling a = false -> double_ling a b = false.
Proof. unfold double_ling. now intros ->. Qed.

(** Appending a 零-free, non-empty piece to a tidy string, directly or
    behind one 零, leaves it tidy. *)
Lemma tidy_app r x :
  tidy r -> ling_free x = true -> truthy x = true -> tidy (r ++ x).
Proof.
  intros [H1 H2] Hx Tx. split.
  - rewrite has_adjacent_app, H1, (ling_free_no_double _ Hx).
    destruct r as [|c r]; [reflexivity|]. destruct x as [|d x]; [reflexivity|].
    rewrite double_ling_right; [reflexivity|]. exact (ling_free_first _ Hx).
  - rewrite ends_with_ling_app by exact Tx. now apply ling_free_last.
Qed.

Lemma tidy_app_ling r x :
  tidy r -> ling_free x = true -> truthy x = true ->
  tidy ((r ++ [ling]) ++ x).
Proof.
  intros [H1 H2] Hx Tx. split.
  - rewrite !has_adjacent_app, H1, (ling_free_no_double _ Hx).
    simpl has_adjacent. rewrite !orb_false_r.
    destruct x as [|d x]; [discriminate|].
    apply ling_free_first in Hx. simpl in Hx.
    destruct r as [|c r].
    + simpl. now apply double_ling_right.
    + change (((c :: r) ++ [ling])) with (c :: r ++ [ling]).
      cbv iota. rewrite (double_ling_right _ d Hx), orb_false_r.
      apply double_ling_left. exact H2.
  - rewrite ends_with_ling_app by exact Tx. now apply ling_free_last.
Qed.

Lemma units_ling_free i : ling_free (units i) = true.
Proof. do 4 (destruct i as [|i]; [reflexivity|]). reflexivity. Qed.

Section Section_converter_facts.

Variable digitMap : N -> str.
Hypothesis digitMap_glyph :
  forall c, c <> c_0 -> ling_free (digitMap c) = true /\ truthy (digitMap c) = true.

Lemma section_loop_tidy rest :
  forall result zeroFlag,
    tidy result -> tidy (section_loop digitMap rest result zeroFlag).
Proof.
  induction rest as [|digit rest IH]; intros result zeroFlag T; [exact T|].
  simpl. destruct (digit =? c_0)%N eqn:E; [now apply IH|].
  apply N.eqb_neq, digitMap_glyph in E as [Hf Ht].
  assert (Hx : ling_free (digitMap digit ++ units (List.length rest)) = true)
    by (now rewrite ling_free_app, Hf, units_ling_free).
  assert (Tx : truthy (digitMap digit ++ units (List.length rest)) = true)
    by (destruct (digitMap digit); [discriminate | reflexivity]).
  apply IH. destruct (zeroFlag && truthy result).
  - now apply tidy_app_ling.
  - now apply tidy_app.
Qed.

Lemma convertSection_with_tidy num : tidy (convertSection_with digitMap num).
Proof.
  unfold convertSection_with. destruct (num =? 0); [now split|].
  apply section_loop_tidy. now split.
Qed.

End Section_converter_facts.

Lemma Script_digitMap_glyph c :
  c <> c_0 ->
  ling_free (Script.digitMap c) = true /\ truthy (Script.digitMap c) = true.
Proof.
  intro H. destruct c as [|p]; [now split|].
  do 6 (destruct p as [p|p|]; try (now split)).
Qed.

Lemma Harness_digitMap_glyph c :
  c <> c_0 ->
  ling_free (Harness.digitMap c) = true /\ truthy (Harness.digitMap c) = true.
Proof.
  intro H. destruct c as [|p]; [now split|].
  do 6 (destruct p as [p|p|]; try (now split)).
Qed.

(** C8. For every integer [num] from 0 to 9999, [convertSection num] (in
    the script and in the harness alike) is the empty string when
    [num = 0], and when [num > 0] it holds no two neighbouring 零 and does
    not end with a 零. *)
Theorem convertSection_zero_and_ling (num : Z) :
  0 <= num <= 9999 ->
  (num = 0 -> Script.convertSection num = [] /\ Harness.convertSection num = [])
  /\ (0 < num ->
      (forall a b, Script.convertSection num <> a ++ ling :: ling :: b)
      /\ (forall a, Script.convertSection num <> a ++ [ling])
      /\ (forall a b, Harness.convertSection num <> a ++ ling :: ling :: b)
      /\ (forall a, Harness.convertSection num <> a ++ [ling])).
Proof.
  intros _. split.
  - intros ->. now split.
  - intros _.
    destruct (convertSection_with_tidy _ Script_digitMap_glyph num) as [S1 S2].
    destruct (convertSection_with_tidy _ Harness_digitMap_glyph num) as [H1 H2].
    rewrite has_adjacent_false_iff in S1, H1.
    rewrite ends_with_ling_false_iff in S2, H2.
    repeat split.
    + intros a b E. now specialize (S1 a ling ling b E).
    + exact S2.
    + intros a b E. now specialize (H1 a ling ling b E).
    + exact H2.
Qed.

Lemma convertSection_zero_and_ling_witness :
  0 <= 1001 <= 9999
  /\ (forall a b, Script.convertSection 1001 <> a ++ ling :: ling :: b)
  /\ (forall a, Script.convertSection 1001 <> a ++ [ling])
  /\ Script.convertSection 1001 = lit "壹仟零壹".
Proof.
  assert (R : 0 <= 1001 <= 9999) by lia.
  split; [exact R|].
  destruct (convertSection_zero_and_ling 1001 R) as [_ H].
  destruct H as (H1 & H2 & _); [lia|].
  split; [exact H1|]. split; [exact H2 | reflexivity].
Defined.

(** ** Decimal digits: [toString], [parseInt], [parseFloat] *)

Lemma digits_val_snoc ds c :
  digits_val (ds ++ [c]) = 10 * digits_val ds + digit_val c.
Proof. unfold digits_val. now rewrite fold_left_app. Qed.

Lemma digits_fuel_acc fuel :
  forall n acc, digits_fuel fuel n acc = digits_fuel fuel n [] ++ acc.
Proof.
  induction fuel as [|f IH]; intros n acc; [reflexivity|].
  simpl. destruct (n / 10 =? 0); [reflexivity|].
  rewrite (IH _ (_ :: acc)), (IH _ [_]). now rewrite <- app_assoc.
Qed.

Lemma digits_fuel_step f n :
  digits_fuel (S f) n [] =
  if n / 10 =? 0 then [Z.to_N (48 + n mod 10)]
  else digits_fuel f (n / 10) [] ++ [Z.to_N (48 + n mod 10)].
Proof.
  simpl. destruct (n / 10 =? 0); [reflexivity|]. apply digits_fuel_acc.
Qed.

Lemma digit_char_ok n :
  is_digit (Z.to_N (48 + n mod 10)) = true
  /\ digit_val (Z.to_N (48 + n mod 10)) = n mod 10.
Proof.
  pose proof (Z.mod_pos_bound n 10 ltac:(lia)) as B.
  unfold is_digit, digit_val. split; [|lia].
  apply andb_true_iff. split; apply N.leb_le; lia.
Qed.

Lemma digits_fuel_spec fuel :
  forall n, 0 <= n < 2 ^ Z.of_nat fuel ->
    forallb is_digit (digits_fuel fuel n []) = true
    /\ digits_val (digits_fuel fuel n []) = n.
Proof.
  induction fuel as [|f IH]; intros n Hn.
  - simpl in *. split; [reflexivity|]. unfold digits_val. simpl. lia.
  - rewrite digits_fuel_step.
    destruct (digit_char_ok n) as [D V].
    pose proof (Z.div_mod n 10 ltac:(lia)) as E.
    pose proof (Z.mod_pos_bound n 10 ltac:(lia)) as B.
    destruct (n / 10 =? 0) eqn:Q.
    + apply Z.eqb_eq in Q. split; [cbn [forallb]; now rewrite D|].
      unfold digits_val. cbn [fold_left]. rewrite V. lia.
    + apply Z.eqb_neq in Q.
      assert (R : 0 <= n / 10 < 2 ^ Z.of_nat f).
      { rewrite Nat2Z.inj_succ, Z.pow_succ_r in Hn by lia. lia. }
      destruct (IH _ R) as [A1 A2]. split.
      * rewrite forallb_app, A1. cbn [forallb]. now rewrite D.
      * rewrite digits_val_snoc, A2, V. lia.
Qed.

Lemma digits_fuel_truthy fuel n : truthy (digits_fuel (S fuel) n []) = true.
Proof.
  rewrite digits_fuel_step. destruct (n / 10 =? 0); [reflexivity|].
  now destruct (digits_fuel fuel (n / 10) []).
Qed.

Lemma log2_fuel n : 0 <= n -> 0 <= n < 2 ^ Z.of_nat (S (Z.to_nat (Z.log2 n))).
Proof.
  intro H. split; [exact H|].
  rewrite Nat2Z.inj_succ, Z2Nat.id by apply Z.log2_nonneg.
  destruct (Z.eq_dec n 0) as [->|N0]; [reflexivity|].
  apply Z.log2_spec. lia.
Qed.

(** The decimal string of a natural number: digits only, at least one,
    and it denotes the number. *)
Lemma digits_spec n :
  0 <= n ->
  forallb is_digit (digits n) = true /\ truthy (digits n) = true
  /\ digits_val (digits n) = n.
Proof.
  intro H. unfold digits.
  destruct (digits_fuel_spec _ _ (log2_fuel n H)) as [A B].
  repeat split; [exact A | apply digits_fuel_truthy | exact B].
Qed.

Lemma toString_nonneg n : 0 <= n -> toString n = digits n.
Proof. unfold toString. intro H. now destruct (Z.ltb_spec n 0); [lia|]. Qed.

Lemma digits_val_nonneg ds : forallb is_digit ds = true -> 0 <= digits_val ds.
Proof.
  induction ds as [|c ds IH] using rev_ind; [unfold digits_val; simpl; lia|].
  rewrite forallb_app, digits_val_snoc. cbn [forallb]. intro H.
  apply andb_true_iff in H as [H1 H2]. rewrite andb_true_r in H2.
  specialize (IH H1). unfold is_digit in H2. unfold digit_val.
  apply andb_true_iff in H2 as [H2 _]. apply N.leb_le in H2. lia.
Qed.

Lemma digit_not_special c :
  is_digit c = true ->
  (c =? c_comma)%N = false /\ is_space c = false /\ (c =? c_dot)%N = false
  /\ (c =? c_minus)%N = false /\ (c =? c_plus)%N = false.
Proof.
  unfold is_digit, is_space, c_comma, c_dot, c_minus, c_plus. intro H.
  apply andb_true_iff in H as [H1 H2]. apply N.leb_le in H1, H2.
  repeat split;
    repeat match goal with
           | |- (_ || _)%bool = false => apply orb_false_intro
           | |- (_ && _)%bool = false => apply andb_false_iff
           end;
    try (apply N.eqb_neq; lia).
  - right. apply N.leb_gt. lia.
  - left. apply N.leb_gt. lia.
Qed.

(** ** The accepted strings and how the converter reads them *)

Lemma span_digits_spec s :
  s = fst (span_digits s) ++ snd (span_digits s)
  /\ forallb is_digit (fst (span_digits s)) = true
  /\ is_digit (first_unit (snd (span_digits s))) = false.
Proof.
  induction s as [|c t (IH1 & IH2 & IH3)]; [now repeat split|].
  simpl. destruct (is_digit c) eqn:D.
  - destruct (span_digits t) as [ds r]. simpl in *.
    repeat split; [now rewrite <- IH1 | now rewrite D | exact IH3].
  - now repeat split.
Qed.

Lemma span_digits_app ds r :
  forallb is_digit ds = true -> is_digit (first_unit r) = false ->
  span_digits (ds ++ r) = (ds, r).
Proof.
  intros H R. induction ds as [|c ds IH].
  - destruct r as [|c r]; [reflexivity|]. simpl in *. now rewrite R.
  - simpl in *. apply andb_true_iff in H as [H1 H2].
    now rewrite H1, (IH H2).
Qed.

Lemma test_amount_inv s :
  test_amount s = true ->
  exists neg ds frac, s = amount_text neg ds frac /\ well_formed ds frac.
Proof.
  unfold test_amount. intro H.
  assert (E : s = (if fst (drop_minus s) then [c_minus] else [])
                  ++ snd (drop_minus s)).
  { destruct s as [|c t]; [reflexivity|]. simpl.
    destruct (c =? c_minus)%N eqn:M; [|reflexivity].
    apply N.eqb_eq in M. now subst. }
  destruct (drop_minus s) as [neg s1]. simpl in E.
  destruct (span_digits_spec s1) as (S1 & S2 & S3).
  destruct (span_digits s1) as [ds r]. simpl in *.
  destruct ds as [|d ds]; [discriminate|].
  destruct r as [|c fr].
  - exists neg, (d :: ds), None. unfold amount_text, well_formed.
    rewrite E, S1. now repeat split.
  - apply andb_true_iff in H as [H H3]. apply andb_true_iff in H as [H1 H2].
    apply N.eqb_eq in H1. apply Nat.leb_le in H2. subst c.
    exists neg, (d :: ds), (Some fr). unfold amount_text, well_formed.
    rewrite E, S1. now repeat split.
Qed.

Section Accepted.

Variables (neg : bool) (ds : str) (frac : option str).
Hypothesis wf : well_formed ds frac.

Lemma tail_first : is_digit (first_unit (amount_tail frac)) = false.
Proof. unfold amount_tail. now destruct frac. Qed.

Lemma ds_first :
  exists d ds', ds = d :: ds' /\ is_digit d = true.
Proof.
  destruct wf as (T & D & _). destruct ds as [|d ds']; [discriminate|].
  exists d, ds'. split; [reflexivity|]. simpl in D.
  now apply andb_true_iff in D.
Qed.

Lemma accepted_drop_minus :
  drop_minus (amount_text neg ds frac) = (neg, ds ++ amount_tail frac).
Proof.
  unfold amount_text. fold (amount_tail frac). destruct neg; [reflexivity|].
  destruct ds_first as (d & ds' & -> & D).
  apply digit_not_special in D as (_ & _ & _ & M & _).
  simpl. now rewrite M.
Qed.

Lemma accepted_span :
  span_digits (ds ++ amount_tail frac) = (ds, amount_tail frac).
Proof. apply span_digits_app; [apply wf | apply tail_first]. Qed.

Lemma accepted_test : test_amount (amount_text neg ds frac) = true.
Proof.
  unfold test_amount. rewrite accepted_drop_minus, accepted_span.
  destruct wf as (T & D & F). destruct ds as [|d ds']; [discriminate|].
  unfold amount_tail. destruct frac as [fr|]; [|reflexivity].
  destruct F as [F1 F2]. rewrite N.eqb_refl, F1.
  apply Nat.leb_le in F2. now rewrite F2.
Qed.

Lemma accepted_parseFloat :
  parseFloat (amount_text neg ds frac) = Num neg (amount_hundredths ds frac).
Proof.
  unfold parseFloat. rewrite accepted_test, accepted_drop_minus, accepted_span.
  unfold amount_hundredths, frac_val, amount_tail.
  destruct frac as [[|j [|f fr]]|]; f_equal; lia.
Qed.

Lemma digits_plain s :
  forallb is_digit s = true -> strip s = s.
Proof.
  intro H. unfold strip. induction s as [|c t IH]; [reflexivity|].
  simpl in *. apply andb_true_iff in H as [H1 H2].
  apply digit_not_special in H1 as (C & S & _). now rewrite C, S, IH.
Qed.

Lemma accepted_strip :
  strip (amount_text neg ds frac) = amount_text neg ds frac.
Proof.
  destruct wf as (_ & D & F). unfold amount_text, strip.
  rewrite !filter_app. fold (strip ds). rewrite (digits_plain _ D).
  f_equal; [now destruct neg|]. f_equal.
  destruct frac as [fr|]; [|reflexivity]. destruct F as [F _].
  simpl. fold (strip fr). now rewrite (digits_plain _ F).
Qed.

Lemma split_dot_digits s :
  forallb (fun c => negb (c =? c_dot)%N) s = true -> split_dot s = [s].
Proof.
  induction s as [|c t IH]; [reflexivity|]. simpl. intro H.
  apply andb_true_iff in H as [H1 H2]. rewrite (IH H2).
  apply negb_true_iff in H1. now rewrite H1.
Qed.

Lemma split_dot_app a b :
  forallb (fun c => negb (c =? c_dot)%N) a = true ->
  split_dot (a ++ c_dot :: b) = a :: split_dot b.
Proof.
  induction a as [|c t IH]; simpl; intro H.
  - destruct (split_dot b) eqn:E; [|reflexivity].
    destruct b; simpl in E; [discriminate|].
    destruct (split_dot b); [discriminate|].
    destruct (_ =? _)%N; discriminate.
  - apply andb_true_iff in H as [H1 H2]. rewrite (IH H2).
    apply negb_true_iff in H1. now rewrite H1.
Qed.

Lemma digits_no_dot s :
  forallb is_digit s = true ->
  forallb (fun c => negb (c =? c_dot)%N) s = true.
Proof.
  induction s as [|c t IH]; [reflexivity|]. simpl. intro H.
  apply andb_true_iff in H as [H1 H2].
  apply digit_not_special in H1 as (_ & _ & D & _). now rewrite D, IH.
Qed.

Lemma head_no_dot :
  forallb (fun c => negb (c =? c_dot)%N) (amount_head neg ds) = true.
Proof.
  unfold amount_head. rewrite forallb_app.
  rewrite (digits_no_dot ds (proj1 (proj2 wf))). now destruct neg.
Qed.

Lemma accepted_split :
  split_dot (amount_text neg ds frac) =
  match frac with
  | Some fr => [amount_head neg ds; fr]
  | None => [amount_head neg ds]
  end.
Proof.
  pose proof head_no_dot as HD. destruct wf as (_ & _ & F).
  unfold amount_text. rewrite app_assoc. fold (amount_head neg ds).
  destruct frac as [fr|].
  - rewrite split_dot_app by exact HD. f_equal.
    apply split_dot_digits, digits_no_dot, F.
  - rewrite app_nil_r. apply split_dot_digits, HD.
Qed.

Lemma accepted_parseInt :
  parseInt (amount_head neg ds)
  = Some (if neg then - digits_val ds else digits_val ds).
Proof.
  unfold parseInt, amount_head.
  destruct ds_first as (d & ds' & E & D).
  destruct (digit_not_special _ D) as (_ & Sp & _ & M & P).
  assert (X : span_digits ds = (ds, [])).
  { rewrite <- (app_nil_r ds) at 1. apply span_digits_app; [apply wf | easy]. }
  destruct neg.
  - simpl. rewrite X. now rewrite E.
  - simpl. rewrite E. simpl skip_space. rewrite Sp, M, P. rewrite <- E, X.
    now rewrite E.
Qed.

End Accepted.

Lemma digit_val_range c : is_digit c = true -> 0 <= digit_val c <= 9.
Proof.
  unfold is_digit, digit_val. intro H.
  apply andb_true_iff in H as [H1 H2]. apply N.leb_le in H1, H2. lia.
Qed.

Lemma frac_val_range frac :
  match frac with
  | Some fr => forallb is_digit fr = true
  | None => True
  end -> 0 <= frac_val frac <= 99.
Proof.
  destruct frac as [[|j [|f fr]]|]; unfold frac_val; cbn [forallb];
    intro H; try lia.
  - rewrite andb_true_r in H. apply digit_val_range in H. lia.
  - apply andb_true_iff in H as [H1 H2]. apply andb_true_iff in H2 as [H2 _].
    apply digit_val_range in H1, H2. lia.
Qed.

Lemma well_formed_frac ds frac :
  well_formed ds frac ->
  match frac with
  | Some fr => forallb is_digit fr = true
  | None => True
  end.
Proof. intros (_ & _ & F). destruct frac; [apply F | exact I]. Qed.

Lemma amount_hundredths_nonneg ds frac :
  well_formed ds frac -> 0 <= amount_hundredths ds frac.
Proof.
  intro W. pose proof (frac_val_range _ (well_formed_frac _ _ W)).
  destruct W as (_ & D & _). apply digits_val_nonneg in D.
  unfold amount_hundredths. lia.
Qed.

Lemma amount_text_truthy neg ds frac :
  well_formed ds frac -> truthy (amount_text neg ds frac) = true.
Proof.
  intros (T & _). unfold amount_text.
  destruct neg; [reflexivity|]. now destruct ds.
Qed.

Lemma strip_strip s : strip (strip s) = strip s.
Proof.
  unfold strip. induction s as [|c t IH]; [reflexivity|]. simpl.
  destruct (negb _) eqn:E; [|exact IH]. simpl. now rewrite E, IH.
Qed.

Lemma Script_convert_strip s :
  Script.convertToChequeFormat s = Script.convertToChequeFormat (strip s).
Proof. unfold Script.convertToChequeFormat. now rewrite strip_strip. Qed.

Lemma Harness_convert_strip s :
  Harness.convertToChequeFormat s = Harness.convertToChequeFormat (strip s).
Proof. unfold Harness.convertToChequeFormat. now rewrite strip_strip. Qed.

(** What the script returns on an accepted string, by cases on the amount
    it denotes. *)
Lemma Script_convert_accepted neg ds frac :
  well_formed ds frac ->
  Script.convertToChequeFormat (amount_text neg ds frac) =
  let h := amount_hundredths ds frac in
  if neg && (0 <? h) then Script.msg_negative
  else if negb neg && (Script.max_hundredths <? h) then Script.msg_too_large
  else if h =? 0 then Script.msg_zero
  else Script.convertInteger (digits_val ds) ++ [yuan]
         ++ Script.fraction_text (frac_digits frac).
Proof.
  intro W. pose proof (amount_hundredths_nonneg _ _ W) as P.
  unfold Script.convertToChequeFormat.
  rewrite (accepted_strip neg _ _ W), (amount_text_truthy neg _ _ W),
    (accepted_test neg _ _ W), (accepted_parseFloat neg _ _ W),
    (accepted_split neg _ _ W).
  cbv zeta. cbn [negb]. unfold lt_zero, gt_hundredths, is_zero.
  destruct neg; cbn [andb negb].
  - destruct (0 <? amount_hundredths ds frac) eqn:E; [reflexivity|].
    apply Z.ltb_ge in E.
    replace (amount_hundredths ds frac =? 0) with true
      by (symmetry; apply Z.eqb_eq; lia).
    reflexivity.
  - destruct (Script.max_hundredths <? amount_hundredths ds frac);
      [reflexivity|].
    destruct (amount_hundredths ds frac =? 0); [reflexivity|].
    rewrite <- app_assoc. f_equal.
    + destruct frac; cbn [nth]; now rewrite (accepted_parseInt false _ _ W).
    + f_equal. now destruct frac.
Qed.

Lemma Harness_convert_accepted neg ds frac :
  well_formed ds frac ->
  Harness.convertToChequeFormat (amount_text neg ds frac) =
  let h := amount_hundredths ds frac in
  if neg && (0 <? h) then Harness.msg_negative
  else if negb neg && (Harness.limit_hundredths <=? h)
       then Harness.msg_too_large
  else if h =? 0 then Harness.msg_zero
  else Harness.convertInteger (digits_val ds) ++ [yuan]
         ++ Harness.fraction_text (frac_digits frac).
Proof.
  intro W. pose proof (amount_hundredths_nonneg _ _ W) as P.
  unfold Harness.convertToChequeFormat.
  rewrite (accepted_strip neg _ _ W), (amount_text_truthy neg _ _ W),
    (accepted_test neg _ _ W), (accepted_parseFloat neg _ _ W),
    (accepted_split neg _ _ W).
  cbv zeta. cbn [negb]. unfold lt_zero, ge_hundredths, is_zero.
  destruct neg; cbn [andb negb].
  - destruct (0 <? amount_hundredths ds frac) eqn:E; [reflexivity|].
    apply Z.ltb_ge in E.
    replace (amount_hundredths ds frac =? 0) with true
      by (symmetry; apply Z.eqb_eq; lia).
    reflexivity.
  - destruct (Harness.limit_hundredths <=? amount_hundredths ds frac);
      [reflexivity|].
    destruct (amount_hundredths ds frac =? 0); [reflexivity|].
    rewrite <- app_assoc. f_equal.
    + destruct frac; cbn [nth]; now rewrite (accepted_parseInt false _ _ W).
    + f_equal. now destruct frac.
Qed.

(** ** The whole conversion *)

Lemma not_In_by_test (x : N) (s : str) :
  forallb (fun c => negb (c =? x)%N) s = true -> ~ In x s.
Proof.
  intros H I. rewrite forallb_forall in H. specialize (H x I).
  now rewrite N.eqb_refl in H.
Qed.

(** A converted amount holds a 圓; no rejection message does. *)
Lemma converted_not_message (a b msg : str) :
  forallb (fun c => negb (c =? yuan)%N) msg = true ->
  a ++ [yuan] ++ b <> msg.
Proof.
  intros H E. apply (not_In_by_test _ _ H). rewrite <- E.
  apply in_or_app. right. now left.
Qed.

(** C1, evaluated. The script's [convertInteger] writes the unit 萬 for
    the all-zero second group of 100000000: the conversion of "100000000"
    is 壹億萬圓整 and not 壹億圓整.  The harness copy of [convertInteger]
    writes nothing for that group. *)
Theorem zero_group_keeps_its_unit :
  Script.convertToChequeFormat (lit "100000000") = lit "壹億萬圓整"
  /\ Script.convertToChequeFormat (lit "100000000") <> lit "壹億圓整"
  /\ Script.convertInteger 100000001 = lit "壹億萬零壹"
  /\ Harness.convertInteger 100000000 = lit "壹億".
Proof. repeat split; try reflexivity. vm_compute. discriminate. Qed.

(** C2, evaluated. With fractional digits that are all zero the script
    appends nothing after 圓, while it appends 整 when the fraction is
    absent; the harness copy has the branch that appends 整. *)
Theorem zero_fraction_lacks_zheng :
  Script.convertToChequeFormat (lit "1.00") = lit "壹圓"
  /\ Script.convertToChequeFormat (lit "5.0") = lit "伍圓"
  /\ Script.convertToChequeFormat (lit "1") = lit "壹圓整"
  /\ Harness.convertToChequeFormat (lit "1.00") = lit "壹圓整"
  /\ Harness.convertToChequeFormat (lit "5.0") = lit "伍圓整".
Proof. repeat split; reflexivity. Qed.

(** C3, as stated, fails on the harness copy: it answers "1000000000000"
    with another literal, and it turns down 100000, which is far below
    999,999,999,999.99, as too large. *)
Lemma harness_limit_differs :
  Harness.convertToChequeFormat (lit "1000000000000")
    <> lit "金額過大（最大支持 999,999,999,999.99）"
  /\ test_amount (strip (lit "100000")) = true
  /\ Harness.convertToChequeFormat (lit "100000")
     = lit "超過最大支持金額（99999.99）".
Proof. repeat split; try reflexivity. vm_compute. discriminate. Qed.

(** C3, amended. On every input whose stripped form the pattern accepts
    (a sign, integer digits, at most two fractional digits), the script
    returns the literal 金額過大（最大支持 999,999,999,999.99） exactly
    when the input has no minus sign and its amount exceeds
    999,999,999,999.99; the harness returns its own literal
    超過最大支持金額（99999.99） exactly when the input has no minus sign
    and its amount is at least 100000. *)
Theorem too_large_exactly (s : str) (neg : bool) (ds : str) (frac : option str) :
  strip s = amount_text neg ds frac ->
  well_formed ds frac ->
  (Script.convertToChequeFormat s
     = lit "金額過大（最大支持 999,999,999,999.99）"
   <-> neg = false /\ 99999999999999 < amount_hundredths ds frac)
  /\ (Harness.convertToChequeFormat s = lit "超過最大支持金額（99999.99）"
      <-> neg = false /\ 10000000 <= amount_hundredths ds frac).
Proof.
  intros E W. split.
  - rewrite Script_convert_strip, E, (Script_convert_accepted _ _ _ W).
    cbv zeta. unfold Script.msg_too_large, Script.max_hundredths.
    destruct neg; cbn [andb negb].
    + split; [|now intros [? _]].
      destruct (0 <? _); [vm_compute; discriminate|].
      destruct (_ =? 0); [vm_compute; discriminate|].
      intro X. now apply converted_not_message in X.
    + destruct (Z.ltb_spec 99999999999999 (amount_hundredths ds frac)).
      * now split.
      * split; [|lia].
        destruct (_ =? 0); [vm_compute; discriminate|].
        intro X. now apply converted_not_message in X.
  - rewrite Harness_convert_strip, E, (Harness_convert_accepted _ _ _ W).
    cbv zeta. unfold Harness.msg_too_large, Harness.limit_hundredths.
    destruct neg; cbn [andb negb].
    + split; [|now intros [? _]].
      destruct (0 <? _); [vm_compute; discriminate|].
      destruct (_ =? 0); [vm_compute; discriminate|].
      intro X. now apply converted_not_message in X.
    + destruct (Z.leb_spec 10000000 (amount_hundredths ds frac)).
      * now split.
      * split; [|lia].
        destruct (_ =? 0); [vm_compute; discriminate|].
        intro X. now apply converted_not_message in X.
Qed.

Lemma too_large_exactly_witness :
  Script.convertToChequeFormat (lit "1000000000000")
  = lit "金額過大（最大支持 999,999,999,999.99）"
  /\ Script.convertToChequeFormat (lit "999,999,999,999.99")
     <> lit "金額過大（最大支持 999,999,999,999.99）".
Proof.
  split.
  - assert (E : strip (lit "1000000000000")
                = amount_text false (lit "1000000000000") None)
      by (vm_compute; reflexivity).
    assert (W : well_formed (lit "1000000000000") None)
      by (unfold well_formed; repeat split; vm_compute; reflexivity).
    destruct (too_large_exactly _ _ _ _ E W) as [[_ H] _].
    apply H. split; [reflexivity | vm_compute; reflexivity].
  - assert (E : strip (lit "999,999,999,999.99")
                = amount_text false (lit "999999999999") (Some (lit "99")))
      by (vm_compute; reflexivity).
    assert (W : well_formed (lit "999999999999") (Some (lit "99"))).
    { unfold well_formed. repeat split; vm_compute; (reflexivity || lia). }
    destruct (too_large_exactly _ _ _ _ E W) as [[H _] _].
    intro X. apply H in X. destruct X as [_ X].
    vm_compute in X. discriminate X.
Defined.

(** C5, as stated, fails: "-0" is accepted by the pattern and begins with
    a minus sign, yet it is not answered with 不支持負數. *)
Lemma minus_zero_not_rejected :
  test_amount (strip (lit "-0")) = true
  /\ first_unit (strip (lit "-0")) = c_minus
  /\ Script.convertToChequeFormat (lit "-0") <> lit "不支持負數".
Proof. repeat split. vm_compute. discriminate. Qed.

(** C5, amended. On every input whose stripped form the pattern accepts,
    begins with a minus sign and denotes an amount other than zero, the
    script returns the literal 不支持負數. *)
Theorem negative_rejected (s ds : str) (frac : option str) :
  strip s = amount_text true ds frac ->
  well_formed ds frac ->
  amount_hundredths ds frac <> 0 ->
  Script.convertToChequeFormat s = lit "不支持負數".
Proof.
  intros E W NZ. pose proof (amount_hundredths_nonneg _ _ W) as P.
  rewrite Script_convert_strip, E, (Script_convert_accepted _ _ _ W).
  cbv zeta. cbn [andb].
  now destruct (Z.ltb_spec 0 (amount_hundredths ds frac)); [|lia].
Qed.

Lemma negative_rejected_witness :
  Script.convertToChequeFormat (lit "-5") = lit "不支持負數"
  /\ Script.convertToChequeFormat (lit " -1,234.50") = lit "不支持負數".
Proof.
  split.
  - assert (E : strip (lit "-5") = amount_text true (lit "5") None)
      by (vm_compute; reflexivity).
    assert (W : well_formed (lit "5") None)
      by (unfold well_formed; repeat split; vm_compute; reflexivity).
    apply (negative_rejected _ _ _ E W). vm_compute. discriminate.
  - assert (E : strip (lit " -1,234.50")
                = amount_text true (lit "1234") (Some (lit "50")))
      by (vm_compute; reflexivity).
    assert (W : well_formed (lit "1234") (Some (lit "50"))).
    { unfold well_formed. repeat split; vm_compute; (reflexivity || lia). }
    apply (negative_rejected _ _ _ E W). vm_compute. discriminate.
Defined.


Lemma digits_well_formed n : 0 <= n -> well_formed (digits n) None.
Proof.
  intro H. destruct (digits_spec n H) as (D & T & _). now repeat split.
Qed.

Lemma amount_text_plain ds : amount_text false ds None = ds.
Proof. unfold amount_text. cbn [app]. apply app_nil_r. Qed.

(** The script on the decimal string of a positive integer within the
    limit. *)
Lemma Script_convert_integer n :
  0 < n <= 999999999999 ->
  Script.convertToChequeFormat (toString n)
  = Script.convertInteger n ++ [yuan; zheng].
Proof.
  intro H. rewrite toString_nonneg by lia.
  pose proof (digits_well_formed n ltac:(lia)) as W.
  destruct (digits_spec n ltac:(lia)) as (_ & _ & V).
  rewrite <- (amount_text_plain (digits n)) at 1.
  rewrite (Script_convert_accepted _ _ _ W). cbv zeta. cbn [andb negb].
  unfold amount_hundredths, frac_val, Script.max_hundredths. rewrite V.
  destruct (Z.ltb_spec 99999999999999 (100 * n + 0)); [lia|].
  destruct (Z.eqb_spec (100 * n + 0) 0); [lia|]. reflexivity.
Qed.

(** C4. For every integer [n] from 0 to 999,999,999,999, the script's
    conversion of the decimal string of [n] ends in 圓整, holds no two
    neighbouring 零, and holds no 零 directly before a 萬 or an 億. *)
Theorem integer_amount_shape (n : Z) :
  0 <= n <= 999999999999 ->
  let out := Script.convertToChequeFormat (toString n) in
  (exists p, out = p ++ [yuan; zheng])
  /\ (forall a b, out <> a ++ ling :: ling :: b)
  /\ (forall a b, out <> a ++ ling :: wan :: b)
  /\ (forall a b, out <> a ++ ling :: yi :: b).
Proof.
  intros H out.
  assert (S : (exists p, out = p ++ [yuan; zheng])
              /\ has_adjacent double_ling out = false
              /\ has_adjacent ling_then_unit out = false).
  { subst out. destruct (Z.eq_dec n 0) as [->|NZ].
    - split; [now exists [ling] | now split].
    - rewrite Script_convert_integer by lia. split; [now eexists|].
      unfold Script.convertInteger.
      destruct (Z.eqb_spec n 0) as [|_]; [contradiction|].
      set (raw := Script.integer_loop _ _ _ _).
      pose proof (cleanup_end raw) as E.
      rewrite !has_adjacent_app, cleanup_no_double, cleanup_no_ling_unit.
      unfold ends_with_ling in E.
      destruct (cleanup raw) as [|c r]; [now split|].
      unfold double_ling, ling_then_unit. rewrite E. now split. }
  destruct S as (S1 & S2 & S3).
  rewrite has_adjacent_false_iff in S2, S3.
  split; [exact S1|]. repeat split; intros a b E.
  - now specialize (S2 a ling ling b E).
  - now specialize (S3 a ling wan b E).
  - now specialize (S3 a ling yi b E).
Qed.

Lemma integer_amount_shape_witness :
  0 <= 100200300 <= 999999999999
  /\ (exists p, Script.convertToChequeFormat (toString 100200300)
                = p ++ [yuan; zheng])
  /\ (forall a b, Script.convertToChequeFormat (toString 100200300)
                  <> a ++ ling :: ling :: b).
Proof.
  assert (R : 0 <= 100200300 <= 999999999999) by lia.
  split; [exact R|].
  destruct (integer_amount_shape 100200300 R) as (H1 & H2 & _).
  split; [exact H1 | exact H2].
Defined.

(** ** The script's [convertInteger] *)

Lemma units_inner k : forallb inner_unit (units k) = true.
Proof. do 4 (destruct k as [|k]; [reflexivity|]). reflexivity. Qed.

Lemma first_unit_app (r x : str) :
  truthy r = true -> first_unit (r ++ x) = first_unit r.
Proof. now destruct r. Qed.

Lemma truthy_app (a b : str) : truthy (a ++ b) = truthy a || truthy b.
Proof. destruct a; [now destruct b | reflexivity]. Qed.

Lemma inner_no_ling_unit s :
  forallb inner_unit s = true -> has_adjacent ling_then_unit s = false.
Proof.
  induction s as [|c t IH]; [reflexivity|]. cbn [forallb]. intro H.
  apply andb_true_iff in H as [_ Ht]. rewrite has_adjacent_cons_hd, (IH Ht).
  destruct t as [|d u]; [reflexivity|]. cbn [forallb] in Ht.
  apply andb_true_iff in Ht as [Hd _]. cbn [truthy first_unit hd andb].
  unfold ling_then_unit. replace (is_big_unit d) with false;
    [now rewrite andb_false_r|].
  unfold inner_unit in Hd. apply negb_true_iff in Hd.
  repeat (apply orb_false_elim in Hd as [Hd ?]).
  unfold is_big_unit. symmetry. now apply orb_false_intro.
Qed.

Lemma inner_first s :
  forallb inner_unit s = true -> is_big_unit (first_unit s) = false.
Proof.
  destruct s as [|c t]; [reflexivity|]. cbn [forallb first_unit hd]. intro H.
  apply andb_true_iff in H as [Hc _].
  unfold inner_unit in Hc. apply negb_true_iff in Hc.
  repeat (apply orb_false_elim in Hc as [Hc ?]).
  unfold is_big_unit. now apply orb_false_intro.
Qed.

Lemma zero_digits_val ds :
  existsb (fun c => negb (c =? c_0)%N) ds = false -> digits_val ds = 0.
Proof.
  induction ds as [|c ds IH] using rev_ind; [reflexivity|].
  rewrite existsb_app, digits_val_snoc. cbn [existsb]. intro H.
  apply orb_false_elim in H as [H1 H2]. rewrite orb_false_r in H2.
  apply negb_false_iff, N.eqb_eq in H2. subst c. rewrite (IH H1). reflexivity.
Qed.

Section Section_text.

Variable digitMap : N -> str.
Hypothesis digitMap_glyph :
  forall c, c <> c_0 ->
    ling_free (digitMap c) = true /\ truthy (digitMap c) = true.
Hypothesis digitMap_inner :
  forall c, c <> c_0 -> forallb inner_unit (digitMap c) = true.

Lemma section_loop_inner rest :
  forall result zeroFlag,
    forallb inner_unit result = true ->
    forallb inner_unit (section_loop digitMap rest result zeroFlag) = true.
Proof.
  induction rest as [|digit rest IH]; intros result zeroFlag H; [exact H|].
  cbn [section_loop]. destruct (digit =? c_0)%N eqn:E; [now apply IH|].
  apply N.eqb_neq in E. apply IH.
  rewrite !forallb_app, (digitMap_inner _ E), units_inner.
  destruct (zeroFlag && truthy result); [rewrite forallb_app|]; now rewrite H.
Qed.

Lemma section_loop_first rest :
  forall result zeroFlag,
    truthy result = true ->
    truthy (section_loop digitMap rest result zeroFlag) = true
    /\ first_unit (section_loop digitMap rest result zeroFlag)
       = first_unit result.
Proof.
  induction rest as [|digit rest IH]; intros result zeroFlag T; [now split|].
  cbn [section_loop]. destruct (digit =? c_0)%N; [now apply IH|].
  set (r1 := if zeroFlag && truthy result then result ++ [ling] else result).
  assert (T1 : truthy r1 = true /\ first_unit r1 = first_unit result).
  { unfold r1. destruct (zeroFlag && truthy result); [|now split].
    now rewrite truthy_app, T, first_unit_app. }
  destruct T1 as [T1 F1].
  destruct (IH (r1 ++ digitMap digit ++ units (List.length rest)) false)
    as [A B]; [now rewrite truthy_app, T1|].
  split; [exact A|]. now rewrite B, first_unit_app.
Qed.

Lemma section_loop_start rest :
  forall zeroFlag,
    existsb (fun c => negb (c =? c_0)%N) rest = true ->
    truthy (section_loop digitMap rest [] zeroFlag) = true
    /\ is_ling (first_unit (section_loop digitMap rest [] zeroFlag)) = false.
Proof.
  induction rest as [|digit rest IH]; intros zeroFlag H; [discriminate|].
  cbn [section_loop existsb] in *.
  destruct (digit =? c_0)%N eqn:E; [now apply IH|].
  apply N.eqb_neq in E. destruct (digitMap_glyph _ E) as [L T].
  rewrite andb_false_r. cbn [app].
  destruct (section_loop_first rest
              (digitMap digit ++ units (List.length rest)) false) as [A B];
    [now rewrite truthy_app, T|].
  split; [exact A|]. rewrite B, first_unit_app by exact T.
  now apply ling_free_first.
Qed.

Lemma convertSection_with_text_ok num :
  0 < num -> section_text_ok (convertSection_with digitMap num) = true.
Proof.
  intro P. unfold convertSection_with.
  destruct (Z.eqb_spec num 0) as [|_]; [lia|].
  rewrite toString_nonneg by lia.
  destruct (digits_spec num ltac:(lia)) as (_ & _ & V).
  assert (X : existsb (fun c => negb (c =? c_0)%N) (digits num) = true).
  { destruct (existsb _ (digits num)) eqn:X; [reflexivity|].
    apply zero_digits_val in X. lia. }
  destruct (section_loop_start _ false X) as [T F].
  pose proof (section_loop_inner (digits num) [] false eq_refl) as I.
  destruct (section_loop_tidy digitMap digitMap_glyph (digits num) [] false)
    as [D E]; [now split|].
  unfold section_text_ok.
  now rewrite T, F, (inner_first _ I), D, (inner_no_ling_unit _ I), E.
Qed.

End Section_text.

Lemma Script_digitMap_inner c :
  c <> c_0 -> forallb inner_unit (Script.digitMap c) = true.
Proof.
  intro H. destruct c as [|p]; [reflexivity|].
  do 6 (destruct p as [p|p|]; try reflexivity).
Qed.

Lemma Script_section_text_ok s :
  0 < s < 10000 -> section_text_ok (Script.convertSection s) = true.
Proof.
  intro R.
  apply (convertSection_with_text_ok _ Script_digitMap_glyph
           Script_digitMap_inner).
  lia.
Qed.

Lemma neat_nil : neat [].
Proof. now repeat split. Qed.

Lemma neat_app x r : neat x -> neat r -> neat (x ++ r).
Proof.
  intros (X1 & X2 & X3) (R1 & R2 & R3).
  destruct r as [|c r]; [rewrite app_nil_r; now repeat split|].
  destruct x as [|d x]; [now repeat split|].
  unfold neat. rewrite !has_adjacent_app, X1, X2, R1, R2.
  unfold ends_with_ling in X3. unfold double_ling, ling_then_unit.
  rewrite X3. repeat split.
  now rewrite ends_with_ling_app.
Qed.

Lemma neat_bigUnits i : neat (bigUnits i).
Proof. do 4 (destruct i as [|i]; [now repeat split|]). now repeat split. Qed.

Lemma section_text_ok_inv t :
  section_text_ok t = true ->
  truthy t = true /\ is_ling (first_unit t) = false
  /\ is_big_unit (first_unit t) = false /\ neat t.
Proof.
  unfold section_text_ok, neat. intro H.
  apply andb_true_iff in H as [H E5]. apply andb_true_iff in H as [H E4].
  apply andb_true_iff in H as [H E3]. apply andb_true_iff in H as [H E2].
  apply andb_true_iff in H as [E0 E1].
  apply negb_true_iff in E1, E2, E3, E4, E5. now repeat split.
Qed.

Lemma section_text_ling_neat t x :
  section_text_ok t = true -> neat x -> neat ([ling] ++ t ++ x).
Proof.
  intros H X. apply section_text_ok_inv in H as (T & L & U & N).
  pose proof (neat_app _ _ N X) as (N1 & N2 & N3).
  destruct t as [|c t]; [discriminate|].
  simpl first_unit in *. unfold neat.
  change ([ling] ++ (c :: t) ++ x) with (ling :: (c :: t) ++ x).
  rewrite !has_adjacent_cons_hd, N1, N2.
  repeat split.
  - cbn [app first_unit hd]. unfold double_ling. rewrite L.
    now rewrite !andb_false_r.
  - cbn [app first_unit hd]. unfold ling_then_unit. rewrite U.
    now rewrite !andb_false_r.
  - exact N3.
Qed.

Lemma neat_section s : 0 < s < 10000 -> neat (Script.convertSection s).
Proof.
  intro R. now apply section_text_ok_inv, Script_section_text_ok.
Qed.

Lemma neat_ling_section s x :
  0 < s < 10000 -> neat x -> neat ([ling] ++ Script.convertSection s ++ x).
Proof.
  intros R X. now apply section_text_ling_neat; [apply Script_section_text_ok|].
Qed.

(** Every round of the loop writes in front of what is there. *)
Lemma Script_loop_acc fuel :
  forall num i result,
    Script.integer_loop fuel num i result
    = Script.integer_loop fuel num i [] ++ result.
Proof.
  induction fuel as [|f IH]; intros num i result; [reflexivity|].
  cbn [Script.integer_loop]. destruct (0 <? num); [|reflexivity].
  cbv zeta. rewrite IH. symmetry. rewrite IH. rewrite <- app_assoc. f_equal.
  destruct (0 <? num mod 10000).
  - destruct (_ && _); now rewrite ?app_nil_r, <- ?app_assoc.
  - destruct (0 <? num / 10000); now rewrite ?app_nil_r.
Qed.

(** Enough fuel is as good as more: the loop ends by itself. *)
Lemma Script_loop_fuel f :
  forall f' num i result,
    num < 2 ^ Z.of_nat f -> (f <= f')%nat ->
    Script.integer_loop f' num i result = Script.integer_loop f num i result.
Proof.
  induction f as [|f IH]; intros f' num i result B L.
  - simpl in B. destruct f' as [|f']; [reflexivity|].
    cbn [Script.integer_loop]. now destruct (Z.ltb_spec 0 num); [lia|].
  - destruct f' as [|f']; [lia|].
    cbn [Script.integer_loop]. destruct (Z.ltb_spec 0 num); [|reflexivity].
    apply IH; [|lia].
    rewrite Nat2Z.inj_succ, Z.pow_succ_r in B by lia.
    apply Z.div_lt_upper_bound; lia.
Qed.

(** [a + b] rounds are [a] rounds followed by [b] rounds. *)
Lemma Script_loop_split a :
  forall b num i result,
    Script.integer_loop (a + b) num i result
    = Script.integer_loop b (num / 10000 ^ Z.of_nat a) (i + a)
        (Script.integer_loop a num i result).
Proof.
  induction a as [|a IH]; intros b num i result.
  - simpl. now rewrite Z.div_1_r, Nat.add_0_r.
  - change (S a + b)%nat with (S (a + b)).
    cbn [Script.integer_loop]. destruct (Z.ltb_spec 0 num) as [P|P].
    + cbv zeta. rewrite IH. f_equal; [|lia].
      rewrite Nat2Z.inj_succ, Z.pow_succ_r by lia.
      rewrite Z.div_div by lia. reflexivity.
    + assert (Q : num / 10000 ^ Z.of_nat (S a) <= 0).
      { apply Z.div_le_upper_bound; [apply Z.pow_pos_nonneg; lia | lia]. }
      destruct b as [|b]; [reflexivity|]. cbn [Script.integer_loop].
      now destruct (Z.ltb_spec 0 (num / 10000 ^ Z.of_nat (S a))); [lia|].
Qed.

Lemma Script_loop_neat fuel :
  forall num i result,
    neat result -> neat (Script.integer_loop fuel num i result).
Proof.
  induction fuel as [|f IH]; intros num i result N; [exact N|].
  cbn [Script.integer_loop]. destruct (0 <? num); [|exact N].
  cbv zeta. apply IH.
  pose proof (Z.mod_pos_bound num 10000 ltac:(lia)) as B.
  destruct (Z.ltb_spec 0 (num mod 10000)) as [P|P].
  - destruct (_ && _).
    + apply neat_ling_section; [lia|]. now apply neat_app; [apply neat_bigUnits|].
    + apply neat_app; [apply neat_section; lia|].
      now apply neat_app; [apply neat_bigUnits|].
  - destruct (0 <? num / 10000); [|exact N].
    now apply neat_app; [apply neat_bigUnits|].
Qed.

(** On a positive number the replacements change nothing: the script's
    result is what its loop wrote. *)
Lemma Script_convertInteger_raw num :
  0 < num ->
  Script.convertInteger num
  = Script.integer_loop (S (Z.to_nat (Z.log2 num))) num 0 [].
Proof.
  intro P. unfold Script.convertInteger.
  destruct (Z.eqb_spec num 0); [lia|].
  destruct (Script_loop_neat (S (Z.to_nat (Z.log2 num))) num 0 [] neat_nil)
    as (N1 & N2 & N3).
  now apply cleanup_fixed.
Qed.

Lemma Script_loop_truthy fuel :
  forall num i,
    0 < num < 2 ^ Z.of_nat fuel ->
    truthy (Script.integer_loop fuel num i []) = true.
Proof.
  induction fuel as [|f IH]; intros num i B; [simpl in B; lia|].
  cbn [Script.integer_loop]. destruct (Z.ltb_spec 0 num) as [_|C]; [|lia].
  cbv zeta. rewrite Script_loop_acc.
  pose proof (Z.mod_pos_bound num 10000 ltac:(lia)) as M.
  pose proof (Z.div_mod num 10000 ltac:(lia)) as D.
  destruct (Z.ltb_spec 0 (num mod 10000)) as [P|P].
  - pose proof (Script_section_text_ok (num mod 10000) ltac:(lia)) as H.
    apply section_text_ok_inv in H as (T & _).
    destruct (Script.convertSection (num mod 10000)); [discriminate|].
    destruct (Script.integer_loop f _ _ _); [|reflexivity].
    now destruct (_ && _).
  - assert (T : truthy (Script.integer_loop f (num / 10000) (S i) []) = true).
    { apply IH. rewrite Nat2Z.inj_succ, Z.pow_succ_r in B by lia. lia. }
    now destruct (Script.integer_loop f (num / 10000) (S i) []).
Qed.

(** ** Reading the amount back *)

Lemma read_from_app st a b : read_from st (a ++ b) = read_from (read_from st a) b.
Proof. apply fold_left_app. Qed.

Lemma read_inner_unit c total group digit :
  inner_unit c = true ->
  read_unit (total, group, digit) c
  = (total, snd (fst (read_unit (0, group, digit) c)),
     snd (read_unit (0, group, digit) c)).
Proof.
  unfold inner_unit, read_unit. intro H. apply negb_true_iff in H.
  repeat (apply orb_false_elim in H as [H ?]).
  repeat match goal with
         | E : (c =? _)%N = false |- _ => rewrite E; clear E
         end.
  repeat match goal with
         | |- context [if ?b then _ else _] => destruct b; try reflexivity
         end.
  now destruct (glyph_digit c).
Qed.

(** Inner units never touch the hundredths read so far. *)
Lemma read_inner t :
  forallb inner_unit t = true ->
  forall total group digit,
    read_from (total, group, digit) t
    = (total, snd (fst (read_from (0, group, digit) t)),
       snd (read_from (0, group, digit) t)).
Proof.
  induction t as [|c t IH]; intros H total group digit; [reflexivity|].
  simpl in H. apply andb_true_iff in H as [Hc Ht].
  unfold read_from in *. cbn [fold_left].
  pose proof (read_inner_unit c 0 group digit Hc) as E0.
  rewrite (read_inner_unit c total _ _ Hc).
  destruct (read_unit (0, group, digit) c) as [[t0 g0] d0].
  cbn [fst snd] in *. injection E0 as ->. now apply IH.
Qed.

Lemma digit_cases c :
  is_digit c = true ->
  In c [48; 49; 50; 51; 52; 53; 54; 55; 56; 57]%N.
Proof.
  unfold is_digit. intro H. apply andb_true_iff in H as [H1 H2].
  apply N.leb_le in H1, H2. simpl. lia.
Qed.

(** The glyph of a digit reads as the digit. *)
Lemma read_digit_glyph c total group digit :
  is_digit c = true ->
  read_from (total, group, digit) (Script.digitMap c)
  = (total, group, digit_val c).
Proof.
  intro H. apply digit_cases in H. simpl in H.
  repeat (destruct H as [<- | H]; [reflexivity|]). contradiction.
Qed.

Lemma digit_val_zero c : is_digit c = true -> (c =? c_0)%N = true -> digit_val c = 0.
Proof. intros _ H. apply N.eqb_eq in H. now subst. Qed.

Lemma digits_val_cons c r :
  digits_val (c :: r)
  = digit_val c * 10 ^ Z.of_nat (List.length r) + digits_val r.
Proof.
  induction r as [|x r IH] using rev_ind.
  - unfold digits_val. cbn. lia.
  - rewrite app_comm_cons, !digits_val_snoc, IH, length_app.
    cbn [List.length]. rewrite Nat.add_1_r, Nat2Z.inj_succ, Z.pow_succ_r by lia.
    lia.
Qed.

Lemma digits_fuel_length fuel :
  forall n k, 0 <= n < 10 ^ Z.of_nat k -> (1 <= k)%nat ->
    (List.length (digits_fuel fuel n []) <= k)%nat.
Proof.
  induction fuel as [|f IH]; intros n k B K; [cbn; lia|].
  rewrite digits_fuel_step. destruct (Z.eqb_spec (n / 10) 0) as [|Q];
    [cbn; lia|].
  destruct k as [|k]; [lia|].
  rewrite Nat2Z.inj_succ, Z.pow_succ_r in B by lia.
  assert (B' : 0 <= n / 10 < 10 ^ Z.of_nat k).
  { split; [apply Z.div_pos; lia | apply Z.div_lt_upper_bound; lia]. }
  destruct k as [|k]; [cbn in B'; lia|].
  rewrite length_app. cbn [List.length].
  specialize (IH (n / 10) (S k) B' ltac:(lia)). lia.
Qed.

(** Reading what the loop of [convertSection] writes for at most four
    digits. *)
Lemma read_section_loop rest :
  (List.length rest <= 4)%nat -> forallb is_digit rest = true ->
  forall result zeroFlag group,
    read_from (0, 0, 0) result = (0, group, 0) ->
    exists group' digit',
      read_from (0, 0, 0) (section_loop Script.digitMap rest result zeroFlag)
      = (0, group', digit')
      /\ group' + digit' = group + digits_val rest.
Proof.
  induction rest as [|c rest IH]; intros L D result zeroFlag group R.
  - exists group, 0. split; [exact R|]. unfold digits_val. cbn. lia.
  - cbn [forallb] in D. apply andb_true_iff in D as [Dc Dr].
    cbn [List.length] in L. rewrite digits_val_cons.
    cbn [section_loop]. destruct (c =? c_0)%N eqn:E.
    + rewrite (digit_val_zero c Dc E).
      destruct (IH ltac:(lia) Dr result true group R) as (g & d & A & B).
      exists g, d. split; [exact A | lia].
    + set (r1 := if zeroFlag && truthy result then result ++ [ling] else result).
      assert (R1 : read_from (0, 0, 0) r1 = (0, group, 0)).
      { unfold r1. destruct (zeroFlag && truthy result); [|exact R].
        rewrite read_from_app, R. reflexivity. }
      assert (R2 : read_from (0, 0, 0) (r1 ++ Script.digitMap c)
                   = (0, group, digit_val c)).
      { now rewrite read_from_app, R1, read_digit_glyph. }
      destruct rest as [|c1 rest].
      * cbn [section_loop List.length units]. rewrite app_nil_r.
        exists group, (digit_val c). split; [exact R2|].
        unfold digits_val. cbn. lia.
      * assert (R3 : read_from (0, 0, 0)
                       (r1 ++ Script.digitMap c
                           ++ units (List.length (c1 :: rest)))
                     = (0, group + digit_val c
                                   * 10 ^ Z.of_nat (List.length (c1 :: rest)), 0)).
        { rewrite app_assoc, read_from_app, R2. cbn [List.length] in *.
          destruct rest as [|c2 [|c3 [|c4 rest]]]; cbn [List.length] in *;
            try lia.
          - change (10 ^ Z.of_nat 1) with 10. cbn -[Z.mul Z.add].
            f_equal. f_equal. lia.
          - change (10 ^ Z.of_nat 2) with 100. cbn -[Z.mul Z.add].
            f_equal. f_equal. lia.
          - change (10 ^ Z.of_nat 3) with 1000. cbn -[Z.mul Z.add].
            f_equal. f_equal. lia. }
        destruct (IH ltac:(lia) Dr _ false _ R3) as (g & d & A & B).
        exists g, d. split; [exact A | lia].
Qed.

Lemma Script_section_reads g :
  0 < g < 10000 -> section_reads g (Script.convertSection g) = true.
Proof.
  intro R. unfold section_reads, Script.convertSection, convertSection_with.
  destruct (Z.eqb_spec g 0) as [|_]; [lia|].
  rewrite toString_nonneg by lia.
  destruct (digits_spec g ltac:(lia)) as (D & _ & V).
  rewrite (section_loop_inner _ Script_digitMap_inner (digits g) [] false eq_refl).
  assert (L : (List.length (digits g) <= 4)%nat).
  { apply digits_fuel_length; [|lia]. change (10 ^ Z.of_nat 4) with 10000. lia. }
  destruct (read_section_loop (digits g) L D [] false 0 eq_refl)
    as (g' & d' & A & B).
  rewrite A. rewrite V in B. cbn [andb].
  rewrite Z.eqb_refl. cbn [andb]. apply Z.eqb_eq. lia.
Qed.

(** Reading the text of a group, from the start of a group. *)
Lemma read_section total g :
  0 < g < 10000 ->
  exists group digit,
    read_from (total, 0, 0) (Script.convertSection g) = (total, group, digit)
    /\ group + digit = g.
Proof.
  intro R. pose proof (Script_section_reads g R) as H.
  unfold section_reads in H. apply andb_true_iff in H as [H1 H2].
  rewrite (read_inner _ H1 total).
  destruct (read_from (0, 0, 0) (Script.convertSection g)) as [[t0 g0] d0].
  apply andb_true_iff in H2 as [_ H2]. apply Z.eqb_eq in H2.
  now exists g0, d0.
Qed.

(** The script's result on an amount of up to three groups, group by
    group. *)
Lemma Script_three_groups v :
  0 < v <= 999999999999 ->
  Script.convertInteger v
  = Script_piece 2 (v / 100000000) false
      ++ Script_piece 1 ((v / 10000) mod 10000) (0 <? v / 100000000)
      ++ Script_piece 0 (v mod 10000) (0 <? v / 10000).
Proof.
  intro R. rewrite Script_convertInteger_raw by lia.
  set (F := S (Z.to_nat (Z.log2 v))).
  assert (BF : 0 <= v < 2 ^ Z.of_nat F) by (apply log2_fuel; lia).
  rewrite <- (Script_loop_fuel F (3 + F) v 0 []) by lia.
  rewrite Script_loop_split.
  replace (v / 10000 ^ Z.of_nat 3) with 0
    by (symmetry; apply Z.div_small; simpl; lia).
  unfold F at 1. cbn [Script.integer_loop]. change (0 <? 0) with false.
  cbv iota zeta.
  assert (Q2 : v / 100000000 = v / 10000 / 10000)
    by (rewrite Z.div_div by lia; reflexivity).
  rewrite Q2. set (q1 := v / 10000).
  pose proof (Z.div_mod v 10000 ltac:(lia)) as D0. fold q1 in D0.
  pose proof (Z.mod_pos_bound v 10000 ltac:(lia)) as M0.
  pose proof (Z.div_mod q1 10000 ltac:(lia)) as D1.
  pose proof (Z.mod_pos_bound q1 10000 ltac:(lia)) as M1.
  assert (B2 : 0 <= q1 / 10000 < 10000).
  { split; [apply Z.div_pos; lia | apply Z.div_lt_upper_bound; lia]. }
  rewrite (Z.mod_small (q1 / 10000)) by lia.
  rewrite (Z.div_small (q1 / 10000)) by lia.
  unfold Script_piece. change (0 <? 0) with false. cbn [andb bigUnits].
  destruct (Z.ltb_spec 0 v) as [_|C]; [|lia].
  destruct (Z.ltb_spec 0 q1) as [P1|P1];
    destruct (Z.ltb_spec 0 (v mod 10000)) as [P0|P0];
    destruct (Z.ltb_spec 0 (q1 / 10000)) as [P2|P2];
    destruct (Z.ltb_spec 0 (q1 mod 10000)) as [G1|G1];
    try lia; cbn [andb];
    repeat match goal with
           | |- context [if ?b then _ else _] => destruct b
           end;
    now rewrite ?app_nil_r, <- ?app_assoc.
Qed.

Lemma read_piece_unit (k : nat) (weight : Z) total g higher :
  (k = 1%nat /\ weight = 1000000) \/ (k = 2%nat /\ weight = 10000000000) ->
  0 <= g < 10000 ->
  read_from (total, 0, 0) (Script_piece k g higher)
  = (total + weight * g, 0, 0).
Proof.
  intros K R. unfold Script_piece.
  destruct (Z.ltb_spec 0 g) as [P|P].
  - rewrite !read_from_app.
    destruct (read_section total g ltac:(lia)) as (a & c & E & S).
    destruct (higher && (g <? 1000));
      [change (read_from (total, 0, 0) [ling]) with (total, 0, 0)
      |change (read_from (total, 0, 0) []) with (total, 0, 0)];
      rewrite E, <- S; now destruct K as [[-> ->] | [-> ->]].
  - assert (g = 0) as -> by lia.
    destruct K as [[-> ->] | [-> ->]], higher; cbn; f_equal; f_equal; lia.
Qed.

Lemma read_piece_last total g higher :
  0 <= g < 10000 ->
  read_from (read_from (total, 0, 0) (Script_piece 0 g higher)) [yuan]
  = (total + 100 * g, 0, 0).
Proof.
  intro R. unfold Script_piece.
  destruct (Z.ltb_spec 0 g) as [P|P].
  - rewrite !read_from_app.
    destruct (read_section total g ltac:(lia)) as (a & c & E & S).
    destruct (higher && (g <? 1000));
      [change (read_from (total, 0, 0) [ling]) with (total, 0, 0)
      |change (read_from (total, 0, 0) []) with (total, 0, 0)];
      rewrite E, <- S; reflexivity.
  - assert (g = 0) as -> by lia.
    destruct higher; cbn; f_equal; f_equal; lia.
Qed.

Lemma fraction_text_two j f :
  Script.fraction_text [j; f]
  = if negb (j =? c_0)%N then
      Script.digitMap j ++ [jiaoU]
        ++ (if negb (f =? c_0)%N then Script.digitMap f ++ [fenU] else [])
    else
      if negb (f =? c_0)%N then [ling] ++ Script.digitMap f ++ [fenU] else [].
Proof. reflexivity. Qed.

Lemma fraction_text_one j :
  Script.fraction_text [j] = Script.fraction_text [j; c_0].
Proof. reflexivity. Qed.

Lemma read_two_digits total j f :
  is_digit j = true -> is_digit f = true ->
  fst (fst (read_from (total, 0, 0) (Script.fraction_text [j; f])))
  = total + (10 * digit_val j + digit_val f).
Proof.
  intros Hj Hf. rewrite fraction_text_two.
  destruct (j =? c_0)%N eqn:J, (f =? c_0)%N eqn:K; cbn [negb];
    rewrite ?(digit_val_zero j Hj J), ?(digit_val_zero f Hf K).
  - cbn. lia.
  - change ([ling] ++ Script.digitMap f ++ [fenU])
      with (ling :: Script.digitMap f ++ [fenU]).
    unfold read_from at 1. cbn [fold_left].
    change (read_unit (total, 0, 0) ling) with (total, 0, 0).
    fold (read_from (total, 0, 0) (Script.digitMap f ++ [fenU])).
    rewrite read_from_app, (read_digit_glyph _ _ _ _ Hf). cbn. lia.
  - rewrite app_nil_r, read_from_app, (read_digit_glyph _ _ _ _ Hj).
    cbn. lia.
  - rewrite !read_from_app, (read_digit_glyph _ _ _ _ Hj).
    change (read_from (total, 0, digit_val j) [jiaoU])
      with (total + 10 * digit_val j, 0, 0).
    rewrite (read_digit_glyph _ _ _ _ Hf). cbn. lia.
Qed.

(** Reading what follows 圓. *)
Lemma read_fraction_text total frac :
  match frac with
  | Some fr => forallb is_digit fr = true /\ (List.length fr <= 2)%nat
  | None => True
  end ->
  fst (fst (read_from (total, 0, 0) (Script.fraction_text (frac_digits frac))))
  = total + frac_val frac.
Proof.
  destruct frac as [[|j [|f [|x fr]]]|]; cbn [frac_digits]; intro H.
  - cbn. lia.
  - destruct H as [H _]. cbn [forallb] in H. rewrite andb_true_r in H.
    rewrite fraction_text_one, (read_two_digits total j c_0 H eq_refl).
    unfold frac_val. change (digit_val c_0) with 0. lia.
  - destruct H as [H _]. cbn [forallb] in H.
    apply andb_true_iff in H as [Hj H]. apply andb_true_iff in H as [Hf _].
    now rewrite (read_two_digits total j f Hj Hf).
  - destruct H as [_ H]. simpl in H. lia.
  - cbn. lia.
Qed.

(** Within the limit, the script's text of a non-negative amount reads
    back as that amount. *)
Lemma Script_read_back ds frac :
  well_formed ds frac ->
  amount_hundredths ds frac <= 99999999999999 ->
  read_hundredths (Script.convertToChequeFormat (amount_text false ds frac))
  = amount_hundredths ds frac.
Proof.
  intros W B. rewrite (Script_convert_accepted _ _ _ W).
  cbv zeta. cbn [andb negb]. unfold Script.max_hundredths.
  destruct (Z.ltb_spec 99999999999999 (amount_hundredths ds frac)); [lia|].
  destruct (Z.eqb_spec (amount_hundredths ds frac) 0) as [Z0|NZ];
    [now rewrite Z0|].
  pose proof (frac_val_range _ (well_formed_frac _ _ W)) as FR.
  pose proof W as (_ & D & F). apply digits_val_nonneg in D.
  unfold amount_hundredths in *. set (v := digits_val ds) in *.
  unfold read_hundredths.
  assert (I : read_from (read_from (0, 0, 0) (Script.convertInteger v)) [yuan]
              = (100 * v, 0, 0)).
  { destruct (Z.eq_dec v 0) as [->|V]; [reflexivity|].
    rewrite Script_three_groups by lia.
    pose proof (Z.div_mod v 10000 ltac:(lia)) as D0.
    pose proof (Z.mod_pos_bound v 10000 ltac:(lia)) as M0.
    pose proof (Z.div_mod (v / 10000) 10000 ltac:(lia)) as D1.
    pose proof (Z.mod_pos_bound (v / 10000) 10000 ltac:(lia)) as M1.
    assert (Q2 : v / 100000000 = v / 10000 / 10000)
      by (rewrite Z.div_div by lia; reflexivity).
    assert (B2 : 0 <= v / 100000000 < 10000).
    { split; [apply Z.div_pos; lia | apply Z.div_lt_upper_bound; lia]. }
    rewrite !read_from_app.
    rewrite (read_piece_unit 2 10000000000) by (auto; lia).
    rewrite (read_piece_unit 1 1000000) by (auto; lia).
    rewrite read_piece_last by lia.
    f_equal. f_equal. lia. }
  rewrite !read_from_app, I.
  apply read_fraction_text. now destruct frac.
Qed.

(** C9. The script's conversion is injective on the amounts it converts:
    two inputs accepted by the pattern, without minus sign, that denote
    different amounts, both at most 999,999,999,999.99, are converted to
    different strings. *)
Theorem convert_distinguishes_amounts
  (s1 s2 ds1 ds2 : str) (frac1 frac2 : option str) :
  strip s1 = amount_text false ds1 frac1 -> well_formed ds1 frac1 ->
  strip s2 = amount_text false ds2 frac2 -> well_formed ds2 frac2 ->
  amount_hundredths ds1 frac1 < amount_hundredths ds2 frac2 ->
  amount_hundredths ds2 frac2 <= 99999999999999 ->
  Script.convertToChequeFormat s1 <> Script.convertToChequeFormat s2.
Proof.
  intros E1 W1 E2 W2 L B E.
  apply (f_equal read_hundredths) in E.
  rewrite (Script_convert_strip s1), (Script_convert_strip s2), E1, E2 in E.
  rewrite !Script_read_back in E by (assumption || lia). lia.
Qed.

Lemma convert_distinguishes_amounts_witness :
  Script.convertToChequeFormat (lit "100000000")
  <> Script.convertToChequeFormat (lit "100,010,000.05").
Proof.
  apply (convert_distinguishes_amounts _ _
           (lit "100000000") (lit "100010000") None (Some (lit "05")));
    try reflexivity.
  - unfold well_formed. repeat split.
  - unfold well_formed. repeat split. vm_compute. lia.
  - vm_compute. discriminate.
Defined.

(** ** The harness's [convertInteger] *)

Lemma Harness_digitMap_inner c :
  c <> c_0 -> forallb inner_unit (Harness.digitMap c) = true.
Proof.
  intro H. destruct c as [|p]; [reflexivity|].
  do 6 (destruct p as [p|p|]; try reflexivity).
Qed.

Lemma Harness_section_text_ok s :
  0 < s < 10000 -> section_text_ok (Harness.convertSection s) = true.
Proof.
  intro R.
  apply (convertSection_with_text_ok _ Harness_digitMap_glyph
           Harness_digitMap_inner).
  lia.
Qed.

Lemma Harness_sections_fuel f :
  forall f' n,
    n < 2 ^ Z.of_nat f -> (f <= f')%nat ->
    Harness.sections_loop f' n = Harness.sections_loop f n.
Proof.
  induction f as [|f IH]; intros f' n B L.
  - simpl in B. destruct f' as [|f']; [reflexivity|].
    cbn [Harness.sections_loop]. now destruct (Z.ltb_spec 0 n); [lia|].
  - destruct f' as [|f']; [lia|].
    cbn [Harness.sections_loop]. destruct (Z.ltb_spec 0 n); [|reflexivity].
    f_equal. apply IH; [|lia].
    rewrite Nat2Z.inj_succ, Z.pow_succ_r in B by lia.
    apply Z.div_lt_upper_bound; lia.
Qed.

Lemma Harness_sections v :
  0 < v <= 999999999999 ->
  Harness.sections_loop (S (Z.to_nat (Z.log2 v))) v
  = v mod 10000
      :: (if 0 <? v / 10000 then
            (v / 10000) mod 10000
              :: (if 0 <? v / 100000000 then [v / 100000000] else [])
          else []).
Proof.
  intro R. set (F := S (Z.to_nat (Z.log2 v))).
  assert (BF : 0 <= v < 2 ^ Z.of_nat F) by (apply log2_fuel; lia).
  rewrite <- (Harness_sections_fuel F (4 + F) v) by lia.
  cbn [Nat.add Harness.sections_loop].
  assert (Q2 : v / 100000000 = v / 10000 / 10000)
    by (rewrite Z.div_div by lia; reflexivity).
  rewrite Q2.
  assert (B2 : 0 <= v / 10000 / 10000 < 10000).
  { rewrite <- Q2. split; [apply Z.div_pos; lia | apply Z.div_lt_upper_bound; lia]. }
  rewrite (Z.mod_small (v / 10000 / 10000)) by lia.
  rewrite (Z.div_small (v / 10000 / 10000)) by lia.
  change (0 <? 0) with false. cbv iota.
  now destruct (Z.ltb_spec 0 v) as [_|C]; [|lia].
Qed.

Lemma Harness_section_truthy g :
  0 < g < 10000 -> truthy (Harness.convertSection g) = true.
Proof.
  intro R. now apply section_text_ok_inv, Harness_section_text_ok.
Qed.

Lemma neat_cons_unit u x : is_ling u = false -> neat x -> neat (u :: x).
Proof.
  intros U (X1 & X2 & X3). unfold neat.
  rewrite !has_adjacent_cons_hd, X1, X2.
  unfold double_ling, ling_then_unit. rewrite U, !andb_false_r.
  repeat split. unfold ends_with_ling in *.
  destruct x as [|c x]; [exact U | exact X3].
Qed.

Lemma collapse_ling_app a b :
  ends_with_ling a = false ->
  collapse_ling (a ++ b) = collapse_ling a ++ collapse_ling b.
Proof.
  intro E. induction a as [|c a IH]; [reflexivity|].
  destruct a as [|c1 a].
  - unfold ends_with_ling in E. simpl in E.
    destruct b as [|c' t]; [reflexivity|].
    change ([c] ++ c' :: t) with (c :: c' :: t).
    rewrite collapse_ling_eq, (double_ling_left _ _ E). reflexivity.
  - change ((c :: c1 :: a) ++ b) with (c :: c1 :: a ++ b).
    rewrite !collapse_ling_eq.
    change (c1 :: a ++ b) with ((c1 :: a) ++ b). rewrite IH by exact E.
    now destruct (double_ling c c1).
Qed.

Lemma cleanup_double_ling a b :
  neat a -> neat (ling :: b) ->
  cleanup (a ++ ling :: ling :: b) = a ++ ling :: b.
Proof.
  intros A B. pose proof (neat_app _ _ A B) as (N1 & N2 & N3).
  destruct A as (A1 & A2 & A3). destruct B as (B1 & B2 & B3).
  unfold cleanup.
  rewrite (collapse_ling_app _ _ A3), (collapse_ling_fixed _ A1).
  rewrite collapse_ling_eq. change (double_ling ling ling) with true.
  cbv iota. rewrite (collapse_ling_fixed _ B1).
  now rewrite (drop_ling_fixed _ N2), (strip_trailing_fixed _ N3).
Qed.

Lemma cleanup_unit_double_ling a u b :
  neat a -> is_ling u = false -> neat (ling :: b) ->
  cleanup (a ++ u :: ling :: ling :: b) = a ++ u :: ling :: b.
Proof.
  intros A U B.
  replace (a ++ u :: ling :: ling :: b) with ((a ++ [u]) ++ ling :: ling :: b)
    by (now rewrite <- app_assoc).
  rewrite cleanup_double_ling; [now rewrite <- app_assoc | | exact B].
  apply neat_app; [exact A|]. now apply neat_cons_unit; [|apply neat_nil].
Qed.

Lemma section_text_neat t : section_text_ok t = true -> neat t.
Proof. intro H. now apply section_text_ok_inv in H. Qed.

Lemma ling_section_text_neat t : section_text_ok t = true -> neat (ling :: t).
Proof.
  intro H. rewrite <- (app_nil_r t).
  exact (section_text_ling_neat t [] H neat_nil).
Qed.

Ltac neat_tac :=
  repeat first
    [ apply neat_nil
    | apply section_text_neat, Harness_section_text_ok; lia
    | apply ling_section_text_neat, Harness_section_text_ok; lia
    | apply (section_text_ling_neat _ _); [apply Harness_section_text_ok; lia|]
    | apply neat_cons_unit; [reflexivity|]
    | apply neat_app; [apply section_text_neat, Harness_section_text_ok; lia|] ].

Ltac harness_simpl :=
  cbn [andb app bigUnits];
  repeat rewrite truthy_app;
  rewrite ?Harness_section_truthy by lia;
  cbn [andb orb app truthy];
  rewrite <- ?app_assoc, ?app_nil_r; cbn [app].

Lemma Harness_three_groups v :
  0 < v <= 999999999999 ->
  Harness.convertInteger v
  = Harness_piece 2 (v / 100000000) false
      ++ Harness_piece 1 ((v / 10000) mod 10000) (0 <? v / 100000000)
      ++ Harness_piece 0 (v mod 10000) (0 <? v / 10000).
Proof.
  intro R. unfold Harness.convertInteger.
  destruct (Z.eqb_spec v 0) as [|_]; [lia|].
  rewrite Harness_sections by lia. cbv zeta.
  assert (Q2 : v / 100000000 = v / 10000 / 10000)
    by (rewrite Z.div_div by lia; reflexivity).
  pose proof (Z.div_mod v 10000 ltac:(lia)) as D0.
  pose proof (Z.mod_pos_bound v 10000 ltac:(lia)) as M0.
  pose proof (Z.div_mod (v / 10000) 10000 ltac:(lia)) as D1.
  pose proof (Z.mod_pos_bound (v / 10000) 10000 ltac:(lia)) as M1.
  assert (B2 : 0 <= v / 100000000 < 10000).
  { split; [apply Z.div_pos; lia | apply Z.div_lt_upper_bound; lia]. }
  set (g0 := v mod 10000) in *. set (g1 := (v / 10000) mod 10000) in *.
  set (g2 := v / 100000000) in *. set (q1 := v / 10000) in *.
  destruct (Z.ltb_spec 0 q1) as [P1|P1];
    [destruct (Z.ltb_spec 0 g2) as [P2|P2]|].
  - replace (0 <? g2) with true by (symmetry; apply Z.ltb_lt; lia).
    cbn [List.length Harness.integer_loop nth Harness.hasNonZeroAfter
         Nat.ltb Nat.leb Nat.sub andb].
    unfold Harness_piece.
    replace (0 <? g2) with true by (symmetry; apply Z.ltb_lt; lia).
    destruct (Z.ltb_spec 0 g1) as [G1|G1];
      destruct (Z.ltb_spec g1 1000) as [S1|S1]; try lia;
      destruct (Z.ltb_spec 0 g0) as [G0|G0];
      destruct (Z.ltb_spec g0 1000) as [S0|S0]; try lia;
      repeat (progress harness_simpl);
      try (apply cleanup_fixed; neat_tac).
    apply cleanup_unit_double_ling; [| reflexivity |]; neat_tac.
  - assert (g2 = 0) as E2 by lia.
    assert (g1 = q1) as E1 by lia.
    cbn [List.length Harness.integer_loop nth Harness.hasNonZeroAfter
         Nat.ltb Nat.leb Nat.sub andb].
    unfold Harness_piece. rewrite E2. change (0 <? 0) with false.
    replace (0 <? g1) with true by (symmetry; apply Z.ltb_lt; lia).
    destruct (Z.ltb_spec 0 g0) as [G0|G0];
      destruct (Z.ltb_spec g0 1000) as [S0|S0]; try lia;
      repeat (progress harness_simpl);
      apply cleanup_fixed; neat_tac.
  - assert (g2 = 0) as E2 by lia.
    assert (g1 = 0) as E1 by lia.
    cbn [List.length Harness.integer_loop nth Harness.hasNonZeroAfter
         Nat.ltb Nat.leb Nat.sub andb].
    unfold Harness_piece. rewrite E2, E1. change (0 <? 0) with false.
    replace (0 <? g0) with true by (symmetry; apply Z.ltb_lt; lia).
    repeat (progress harness_simpl).
    apply cleanup_fixed; neat_tac.
Qed.

Lemma Harness_piece_neat k g higher :
  0 <= g < 10000 -> neat (Harness_piece k g higher).
Proof.
  intro R. unfold Harness_piece.
  destruct (Z.ltb_spec 0 g) as [P|P]; [|apply neat_nil].
  destruct (higher && (g <? 1000)).
  - apply section_text_ling_neat;
      [apply Harness_section_text_ok; lia | apply neat_bigUnits].
  - cbn [app]. apply neat_app; [|apply neat_bigUnits].
    apply section_text_neat, Harness_section_text_ok. lia.
Qed.

Lemma Harness_piece_truthy k g higher :
  0 < g < 10000 -> truthy (Harness_piece k g higher) = true.
Proof.
  intro R. unfold Harness_piece.
  destruct (Z.ltb_spec 0 g) as [_|C]; [|lia].
  rewrite !truthy_app, (Harness_section_truthy g R).
  now rewrite orb_true_r.
Qed.

(** The rule of the 零 in the harness's [convertInteger]. *)
Lemma Harness_ling_rule (n : Z) (k : nat) :
  0 < n <= 999999999999 ->
  0 < (n / 10000 ^ Z.of_nat k) mod 10000 < 1000 ->
  0 < n / 10000 ^ Z.of_nat (S k) ->
  Harness.convertInteger n
  = Harness_groups_from n (S k)
      ++ [ling]
      ++ Harness.convertSection ((n / 10000 ^ Z.of_nat k) mod 10000)
      ++ bigUnits k
      ++ Harness_groups_below n k
  /\ truthy (Harness_groups_from n (S k)) = true
  /\ ends_with_ling (Harness_groups_from n (S k)) = false.
Proof.
  intros Hn Hs Hup.
  pose proof (Harness_three_groups n Hn) as E.
  assert (Q2 : n / 100000000 = n / 10000 / 10000)
    by (rewrite Z.div_div by lia; reflexivity).
  assert (B2 : 0 <= n / 100000000 < 10000).
  { split; [apply Z.div_pos; lia | apply Z.div_lt_upper_bound; lia]. }
  pose proof (Z.mod_pos_bound (n / 10000) 10000 ltac:(lia)) as M1.
  pose proof (Z.div_mod (n / 10000) 10000 ltac:(lia)) as D1.
  assert (T2 : Harness_group_text n 2 = Harness_piece 2 (n / 100000000) false).
  { unfold Harness_group_text, group_of.
    change (10000 ^ Z.of_nat 2) with 100000000.
    change (10000 ^ Z.of_nat 3) with 1000000000000.
    rewrite (Z.mod_small _ _ B2).
    assert (X : n / 1000000000000 = 0) by (apply Z.div_small; lia).
    now rewrite X. }
  assert (T1 : Harness_group_text n 1
               = Harness_piece 1 ((n / 10000) mod 10000) (0 <? n / 100000000)).
  { reflexivity. }
  assert (T0 : Harness_group_text n 0
               = Harness_piece 0 (n mod 10000) (0 <? n / 10000)).
  { unfold Harness_group_text, group_of.
    change (10000 ^ Z.of_nat 0) with 1. change (10000 ^ Z.of_nat 1) with 10000.
    now rewrite Z.div_1_r. }
  destruct k as [|[|k]].
  - change (10000 ^ Z.of_nat 0) with 1 in *.
    change (10000 ^ Z.of_nat 1) with 10000 in *.
    rewrite Z.div_1_r in *.
    unfold Harness_groups_from, Harness_groups_below.
    cbn [Nat.sub seq rev app map List.concat]. rewrite T2, T1, !app_nil_r.
    split; [|split].
    + rewrite E, <- !app_assoc. do 2 f_equal.
      unfold Harness_piece at 1.
      destruct (Z.ltb_spec 0 (n mod 10000)) as [_|C]; [|lia].
      destruct (Z.ltb_spec 0 (n / 10000)) as [_|C]; [|lia].
      destruct (Z.ltb_spec (n mod 10000) 1000) as [_|C]; [|lia].
      cbn [andb bigUnits app]. now rewrite !app_nil_r.
    + rewrite truthy_app.
      destruct (Z.ltb_spec 0 ((n / 10000) mod 10000)) as [P|P].
      * rewrite (Harness_piece_truthy 1) by lia. apply orb_true_r.
      * rewrite (Harness_piece_truthy 2) by lia. reflexivity.
    + apply neat_app; apply Harness_piece_neat; lia.
  - change (10000 ^ Z.of_nat 1) with 10000 in *.
    change (10000 ^ Z.of_nat 2) with 100000000 in *.
    unfold Harness_groups_from, Harness_groups_below.
    cbn [Nat.sub seq rev app map List.concat]. rewrite T2, T0, !app_nil_r.
    split; [|split].
    + rewrite E. f_equal.
      unfold Harness_piece at 1.
      destruct (Z.ltb_spec 0 ((n / 10000) mod 10000)) as [_|C]; [|lia].
      destruct (Z.ltb_spec 0 (n / 100000000)) as [_|C]; [|lia].
      destruct (Z.ltb_spec ((n / 10000) mod 10000) 1000) as [_|C]; [|lia].
      cbn [andb app]. now rewrite <- !app_assoc.
    + apply Harness_piece_truthy. lia.
    + apply Harness_piece_neat. lia.
  - exfalso.
    assert (X : n / 10000 ^ Z.of_nat (S (S (S k))) = 0).
    { apply Z.div_small. split; [lia|].
      apply Z.lt_le_trans with (10000 ^ 3); [reflexivity || lia|].
      apply Z.pow_le_mono_r; lia. }
    lia.
Qed.

(** C6. In [convertInteger], of the script and of the harness alike, for
    every amount [n] up to 999,999,999,999 and every group of [n] (the
    one of index [k]) that is not zero, is below 1000 and has a non-zero
    group above it, the result is: the text of the groups above, which is
    not empty and does not end in 零; then one 零; then the group's own
    text ([convertSection] of the group and its unit); then the text of
    the groups below.  In particular "10001" is converted to
    壹萬零壹圓整, by the script and by the harness. *)
Theorem ling_before_short_group (n : Z) (k : nat) :
  0 < n <= 999999999999 ->
  0 < (n / 10000 ^ Z.of_nat k) mod 10000 < 1000 ->
  0 < n / 10000 ^ Z.of_nat (S k) ->
  (Script.convertInteger n
   = Script_groups_from n (S k)
       ++ [ling]
       ++ Script.convertSection ((n / 10000 ^ Z.of_nat k) mod 10000)
       ++ bigUnits k
       ++ Script_groups_below n k
   /\ truthy (Script_groups_from n (S k)) = true
   /\ ends_with_ling (Script_groups_from n (S k)) = false)
  /\ (Harness.convertInteger n
      = Harness_groups_from n (S k)
          ++ [ling]
          ++ Harness.convertSection ((n / 10000 ^ Z.of_nat k) mod 10000)
          ++ bigUnits k
          ++ Harness_groups_below n k
      /\ truthy (Harness_groups_from n (S k)) = true
      /\ ends_with_ling (Harness_groups_from n (S k)) = false)
  /\ Script.convertToChequeFormat (lit "10001") = lit "壹萬零壹圓整"
  /\ Harness.convertToChequeFormat (lit "10001") = lit "壹萬零壹圓整".
Proof.
  intros Hn Hs Hup.
  split; [|split; [now apply Harness_ling_rule | now split]].
  set (F := S (Z.to_nat (Z.log2 n))).
  assert (BF : 0 <= n < 2 ^ Z.of_nat F) by (apply log2_fuel; lia).
  assert (P10 : 0 < 10000 ^ Z.of_nat k) by (apply Z.pow_pos_nonneg; lia).
  assert (E10 : 10000 ^ Z.of_nat (S k) = 10000 ^ Z.of_nat k * 10000)
    by (rewrite Nat2Z.inj_succ, Z.pow_succ_r; lia).
  assert (Eup : n / 10000 ^ Z.of_nat (S k) = n / 10000 ^ Z.of_nat k / 10000)
    by (rewrite E10, Z.div_div; lia).
  assert (Bup : 0 < n / 10000 ^ Z.of_nat (S k) < 2 ^ Z.of_nat F).
  { split; [exact Hup|].
    apply Z.le_lt_trans with n; [|lia].
    apply Z.div_le_upper_bound; [lia|]. nia. }
  split; [|split].
  - rewrite Script_convertInteger_raw by lia. fold F.
    rewrite <- (Script_loop_fuel F (S k + F) n 0 []) by lia.
    rewrite Script_loop_split, Script_loop_acc. cbn [Nat.add].
    unfold Script_groups_from. fold F. f_equal.
    replace (S k) with (k + 1)%nat at 1 by lia.
    rewrite Script_loop_split. cbn [Script.integer_loop Nat.add].
    unfold Script_groups_below.
    set (m := n / 10000 ^ Z.of_nat k) in *.
    pose proof (Z.div_mod m 10000 ltac:(lia)) as D.
    destruct (Z.ltb_spec 0 m) as [_|C]; [|rewrite Eup in Hup; lia].
    cbv zeta.
    destruct (Z.ltb_spec 0 (m mod 10000)) as [_|C]; [|lia].
    destruct (Z.ltb_spec 0 (m / 10000)) as [_|C]; [|lia].
    destruct (Z.ltb_spec (m mod 10000) 1000) as [_|C]; [|lia].
    reflexivity.
  - apply Script_loop_truthy. exact Bup.
  - apply (Script_loop_neat F _ (S k) [] neat_nil).
Qed.

Lemma ling_before_short_group_witness :
  Script.convertInteger 100050001
  = lit "壹億" ++ [ling] ++ lit "伍" ++ lit "萬" ++ lit "零壹"
  /\ Script.convertInteger 10001
     = lit "壹萬" ++ [ling] ++ Script.convertSection 1 ++ bigUnits 0 ++ []
  /\ Harness.convertInteger 10050
     = lit "壹萬" ++ [ling] ++ lit "伍拾" ++ bigUnits 0 ++ []
  /\ Harness.convertInteger 100050001
     = lit "壹億" ++ [ling] ++ lit "伍" ++ lit "萬" ++ lit "零壹"
  /\ Harness.convertInteger 100000050
     = lit "壹億" ++ [ling] ++ lit "伍拾".
Proof.
  split; [|split; [|split; [|split]]].
  - refine (proj1 (proj1 (ling_before_short_group 100050001 1 _ _ _)));
      vm_compute; split; congruence.
  - refine (proj1 (proj1 (ling_before_short_group 10001 0 _ _ _)));
      vm_compute; split; congruence.
  - refine (proj1 (proj1 (proj2 (ling_before_short_group 10050 0 _ _ _))));
      vm_compute; split; congruence.
  - refine (proj1 (proj1 (proj2 (ling_before_short_group 100050001 1 _ _ _))));
      vm_compute; split; congruence.
  - refine (proj1 (proj1 (proj2 (ling_before_short_group 100000050 0 _ _ _))));
      vm_compute; split; congruence.
Defined.

(** ** What the script can answer *)

Lemma glyphs_only_app a b : glyphs_only (a ++ b) = glyphs_only a && glyphs_only b.
Proof. apply forallb_app. Qed.

Lemma digit_glyphs c : is_digit c = true -> glyphs_only (Script.digitMap c) = true.
Proof.
  intro H. apply digit_cases in H. simpl in H.
  repeat (destruct H as [<- | H]; [reflexivity|]). contradiction.
Qed.

Lemma section_loop_glyphs rest :
  (List.length rest <= 4)%nat -> forallb is_digit rest = true ->
  forall result zeroFlag,
    glyphs_only result = true ->
    glyphs_only (section_loop Script.digitMap rest result zeroFlag) = true.
Proof.
  induction rest as [|c rest IH]; intros L D result zeroFlag G; [exact G|].
  cbn [forallb] in D. apply andb_true_iff in D as [Dc Dr].
  cbn [List.length] in L. cbn [section_loop].
  destruct (c =? c_0)%N; [apply IH; (lia || assumption)|].
  apply IH; [lia | assumption |].
  rewrite !glyphs_only_app, (digit_glyphs _ Dc).
  assert (U : glyphs_only (units (List.length rest)) = true).
  { destruct rest as [|c1 [|c2 [|c3 [|c4 rest]]]]; cbn [List.length] in *;
      try reflexivity; lia. }
  rewrite U. destruct (zeroFlag && truthy result);
    [rewrite glyphs_only_app|]; now rewrite G.
Qed.

Lemma digits_length4 g : 0 <= g < 10000 -> (List.length (digits g) <= 4)%nat.
Proof.
  intro R. apply digits_fuel_length; [|lia].
  change (10 ^ Z.of_nat 4) with 10000. lia.
Qed.

Lemma Script_section_glyphs g :
  0 <= g < 10000 -> glyphs_only (Script.convertSection g) = true.
Proof.
  intro R. unfold Script.convertSection, convertSection_with.
  destruct (g =? 0); [reflexivity|]. rewrite toString_nonneg by lia.
  destruct (digits_spec g ltac:(lia)) as (D & _).
  now apply section_loop_glyphs; [apply digits_length4 | |].
Qed.

Lemma Script_piece_glyphs k g higher :
  (k <= 2)%nat -> 0 <= g < 10000 -> glyphs_only (Script_piece k g higher) = true.
Proof.
  intros K R. unfold Script_piece.
  assert (U : glyphs_only (bigUnits k) = true).
  { destruct k as [|[|[|k]]]; try reflexivity; lia. }
  destruct (0 <? g).
  - rewrite !glyphs_only_app, (Script_section_glyphs g R), U.
    now destruct (higher && _).
  - now destruct higher.
Qed.

Lemma Script_convertInteger_glyphs v :
  0 <= v <= 999999999999 -> glyphs_only (Script.convertInteger v) = true.
Proof.
  intro R. destruct (Z.eq_dec v 0) as [->|N]; [reflexivity|].
  rewrite Script_three_groups by lia.
  assert (B2 : 0 <= v / 100000000 < 10000).
  { split; [apply Z.div_pos; lia | apply Z.div_lt_upper_bound; lia]. }
  pose proof (Z.mod_pos_bound v 10000 ltac:(lia)).
  pose proof (Z.mod_pos_bound (v / 10000) 10000 ltac:(lia)).
  rewrite !glyphs_only_app, !Script_piece_glyphs by lia. reflexivity.
Qed.

Lemma Script_fraction_glyphs frac :
  match frac with
  | Some fr => forallb is_digit fr = true /\ (List.length fr <= 2)%nat
  | None => True
  end ->
  glyphs_only (Script.fraction_text (frac_digits frac)) = true.
Proof.
  destruct frac as [[|j [|f [|x fr]]]|]; cbn [frac_digits]; intro H;
    try reflexivity.
  - destruct H as [H _]. cbn [forallb] in H. rewrite andb_true_r in H.
    rewrite fraction_text_one, fraction_text_two.
    change (negb (c_0 =? c_0)%N) with false. cbv iota.
    destruct (negb (j =? c_0)%N); [|reflexivity].
    now rewrite app_nil_r, glyphs_only_app, (digit_glyphs _ H).
  - destruct H as [H _]. cbn [forallb] in H.
    apply andb_true_iff in H as [Hj H]. apply andb_true_iff in H as [Hf _].
    rewrite fraction_text_two.
    destruct (negb (j =? c_0)%N), (negb (f =? c_0)%N);
      rewrite ?glyphs_only_app, ?(digit_glyphs _ Hj), ?(digit_glyphs _ Hf);
      reflexivity.
  - destruct H as [_ H]. cbn in H. lia.
Qed.

(** Every accepted amount within the limit is written with the glyphs of
    the cheque only. *)
Lemma Script_converted_glyphs ds frac :
  well_formed ds frac ->
  amount_hundredths ds frac <= 99999999999999 ->
  glyphs_only (Script.convertInteger (digits_val ds) ++ [yuan]
                 ++ Script.fraction_text (frac_digits frac)) = true.
Proof.
  intros W B.
  pose proof (frac_val_range _ (well_formed_frac _ _ W)) as FR.
  pose proof W as (_ & D & F). apply digits_val_nonneg in D.
  unfold amount_hundredths in B.
  rewrite !glyphs_only_app, Script_convertInteger_glyphs by lia.
  rewrite Script_fraction_glyphs; [reflexivity | now destruct frac].
Qed.

(** What the script returns, input by input. *)
Lemma Script_classify s :
  (strip s = [] /\ Script.convertToChequeFormat s = Script.msg_empty)
  \/ (strip s <> [] /\ test_amount (strip s) = false
      /\ Script.convertToChequeFormat s = Script.msg_format)
  \/ (exists neg ds frac,
        strip s = amount_text neg ds frac /\ well_formed ds frac
        /\ Script.convertToChequeFormat s
           = Script.convertToChequeFormat (amount_text neg ds frac)).
Proof.
  destruct (strip s) as [|c t] eqn:E.
  - left. split; [reflexivity|]. unfold Script.convertToChequeFormat.
    now rewrite E.
  - right. destruct (test_amount (strip s)) eqn:T.
    + right. apply test_amount_inv in T as (neg & ds & frac & A & W).
      exists neg, ds, frac. split; [now rewrite <- E|]. split; [exact W|].
      now rewrite Script_convert_strip, A.
    + left. rewrite <- E. split; [now rewrite E|]. split; [exact T|].
      unfold Script.convertToChequeFormat. rewrite T. now rewrite E.
Qed.

Lemma Script_output_cases s :
  Script.convertToChequeFormat s = Script.msg_empty
  \/ Script.convertToChequeFormat s = Script.msg_format
  \/ Script.convertToChequeFormat s = Script.msg_negative
  \/ Script.convertToChequeFormat s = Script.msg_too_large
  \/ glyphs_only (Script.convertToChequeFormat s) = true.
Proof.
  destruct (Script_classify s)
    as [[_ E] | [(_ & _ & E) | (neg & ds & frac & _ & W & E)]].
  - left. exact E.
  - right. left. exact E.
  - rewrite E, (Script_convert_accepted _ _ _ W). cbv zeta.
    pose proof (amount_hundredths_nonneg _ _ W) as P.
    destruct neg; cbn [negb andb].
    + destruct (Z.ltb_spec 0 (amount_hundredths ds frac)) as [L|L].
      * right. right. left. reflexivity.
      * do 4 right. destruct (Z.eqb_spec (amount_hundredths ds frac) 0);
          [reflexivity | lia].
    + destruct (Z.ltb_spec Script.max_hundredths (amount_hundredths ds frac))
        as [L|L].
      * right. right. right. left. reflexivity.
      * do 4 right. destruct (_ =? 0); [reflexivity|].
        apply Script_converted_glyphs; [exact W | exact L].
Qed.

(** ** The page's handlers *)

Lemma starts_with_In p pat s : starts_with (p :: pat) s = true -> In p s.
Proof.
  destruct s as [|c s]; [discriminate|]. cbn [starts_with]. intro H.
  apply andb_true_iff in H as [H _]. apply N.eqb_eq in H. now left.
Qed.

Lemma includes_In s p pat : includes s (p :: pat) = true -> In p s.
Proof.
  induction s as [|c s IH]; intro H.
  - cbn in H. discriminate.
  - cbn [includes] in H. apply orb_true_iff in H as [H | H].
    + now apply starts_with_In in H.
    + right. now apply IH.
Qed.

Lemma glyphs_not_included s p pat :
  glyphs_only s = true -> cheque_glyph p = false ->
  includes s (p :: pat) = false.
Proof.
  intros G P. destruct (includes s (p :: pat)) eqn:I; [|reflexivity].
  apply includes_In in I. unfold glyphs_only in G.
  rewrite forallb_forall in G. specialize (G p I). congruence.
Qed.

Lemma glyphs_not_error text :
  glyphs_only text = true -> Script.is_error_text text = false.
Proof.
  intro G. unfold Script.is_error_text.
  repeat match goal with
         | |- context [lit ?s] =>
           let x := eval vm_compute in (lit s) in change (lit s) with x
         end.
  now rewrite !(glyphs_not_included _ _ _ G) by reflexivity.
Qed.

Lemma strip_skip_space s : strip (skip_space s) = strip s.
Proof.
  induction s as [|c s IH]; [reflexivity|]. cbn [skip_space].
  destruct (is_space c) eqn:E; [|reflexivity].
  rewrite IH. unfold strip. cbn [filter]. now rewrite E, orb_true_r.
Qed.

Lemma strip_rev s : strip (rev s) = rev (strip s).
Proof.
  unfold strip. induction s as [|c s IH]; [reflexivity|].
  cbn [rev filter]. rewrite filter_app, IH. cbn [filter].
  destruct (negb _); [reflexivity | now rewrite app_nil_r].
Qed.

Lemma strip_trim s : strip (trim s) = strip s.
Proof.
  unfold trim.
  now rewrite strip_rev, strip_skip_space, strip_rev, rev_involutive,
    strip_skip_space.
Qed.

Lemma Script_convert_trim s :
  Script.convertToChequeFormat (trim s) = Script.convertToChequeFormat s.
Proof.
  now rewrite (Script_convert_strip (trim s)), strip_trim,
    <- Script_convert_strip.
Qed.

(** X7. The [input] listener shows the conversion of the value as typed
    (trimming it first changes nothing), and it gives the result the
    class [error] exactly when the text shown is one of the three
    rejections 輸入格式錯誤…, 不支持負數, 金額過大…: never for the prompt
    請輸入金額 and never for a converted amount. *)
Theorem input_error_flag (value : str) :
  Script.textContent (Script.on_input value)
  = Script.convertToChequeFormat value
  /\ (Script.error_class (Script.on_input value) = true
      <-> Script.convertToChequeFormat value = Script.msg_format
          \/ Script.convertToChequeFormat value = Script.msg_negative
          \/ Script.convertToChequeFormat value = Script.msg_too_large).
Proof.
  unfold Script.on_input. cbn [Script.textContent Script.error_class].
  rewrite Script_convert_trim. split; [reflexivity|].
  destruct (Script_output_cases value) as [E | [E | [E | [E | G]]]];
    try rewrite E.
  - split; [intro H; vm_compute in H; discriminate H|].
    intros [H | [H | H]]; vm_compute in H; discriminate H.
  - split; [now left | reflexivity].
  - split; [right; now left | reflexivity].
  - split; [right; now right | reflexivity].
  - rewrite (glyphs_not_error _ G). split; [discriminate|].
    intros [H | [H | H]]; rewrite H in G; vm_compute in G; discriminate G.
Qed.


(** ** Which inputs get which answer *)

Lemma Harness_classify s :
  (strip s = [] /\ Harness.convertToChequeFormat s = Harness.msg_empty)
  \/ (strip s <> [] /\ test_amount (strip s) = false
      /\ Harness.convertToChequeFormat s = Harness.msg_format)
  \/ (exists neg ds frac,
        strip s = amount_text neg ds frac /\ well_formed ds frac
        /\ Harness.convertToChequeFormat s
           = Harness.convertToChequeFormat (amount_text neg ds frac)).
Proof.
  destruct (strip s) as [|c t] eqn:E.
  - left. split; [reflexivity|]. unfold Harness.convertToChequeFormat.
    now rewrite E.
  - right. destruct (test_amount (strip s)) eqn:T.
    + right. apply test_amount_inv in T as (neg & ds & frac & A & W).
      exists neg, ds, frac. split; [now rewrite <- E|]. split; [exact W|].
      now rewrite Harness_convert_strip, A.
    + left. rewrite <- E. split; [now rewrite E|]. split; [exact T|].
      unfold Harness.convertToChequeFormat. rewrite T. now rewrite E.
Qed.

Lemma Script_accepted_no_prompt neg ds frac :
  well_formed ds frac ->
  Script.convertToChequeFormat (amount_text neg ds frac) <> Script.msg_empty
  /\ Script.convertToChequeFormat (amount_text neg ds frac) <> Script.msg_format.
Proof.
  intro W. rewrite (Script_convert_accepted _ _ _ W). cbv zeta.
  destruct (neg && _); [split; vm_compute; discriminate|].
  destruct (negb neg && _); [split; vm_compute; discriminate|].
  destruct (_ =? 0); [split; vm_compute; discriminate|].
  split; now apply converted_not_message.
Qed.

Lemma Harness_accepted_no_prompt neg ds frac :
  well_formed ds frac ->
  Harness.convertToChequeFormat (amount_text neg ds frac) <> Harness.msg_empty
  /\ Harness.convertToChequeFormat (amount_text neg ds frac)
     <> Harness.msg_format.
Proof.
  intro W. rewrite (Harness_convert_accepted _ _ _ W). cbv zeta.
  destruct (neg && _); [split; vm_compute; discriminate|].
  destruct (negb neg && _); [split; vm_compute; discriminate|].
  destruct (_ =? 0); [split; vm_compute; discriminate|].
  split; now apply converted_not_message.
Qed.

(** X9. Both copies of [convertToChequeFormat] answer with the prompt
    請輸入金額 exactly on the inputs that hold nothing but commas and
    white space. *)
Theorem empty_prompt_exactly (s : str) :
  (Script.convertToChequeFormat s = Script.msg_empty <-> strip s = [])
  /\ (Harness.convertToChequeFormat s = Harness.msg_empty <-> strip s = []).
Proof.
  split.
  - destruct (Script_classify s)
      as [[E1 E2] | [(N & _ & E) | (neg & ds & frac & A & W & E)]].
    + now split.
    + rewrite E. split; [intro H; vm_compute in H; discriminate H|].
      intro H. now destruct N.
    + rewrite E. destruct (Script_accepted_no_prompt neg _ _ W) as [X _].
      split; [intro H; now destruct X|].
      intro H. rewrite H in A. pose proof (amount_text_truthy neg _ _ W) as T.
      rewrite <- A in T. discriminate T.
  - destruct (Harness_classify s)
      as [[E1 E2] | [(N & _ & E) | (neg & ds & frac & A & W & E)]].
    + now split.
    + rewrite E. split; [intro H; vm_compute in H; discriminate H|].
      intro H. now destruct N.
    + rewrite E. destruct (Harness_accepted_no_prompt neg _ _ W) as [X _].
      split; [intro H; now destruct X|].
      intro H. rewrite H in A. pose proof (amount_text_truthy neg _ _ W) as T.
      rewrite <- A in T. discriminate T.
Qed.

(** X10. Both copies answer with 輸入格式錯誤（請輸入有效數字）
    exactly on the inputs that, commas and white space removed, are not
    empty and do not match the pattern. *)
Theorem format_error_exactly (s : str) :
  (Script.convertToChequeFormat s = Script.msg_format
   <-> strip s <> [] /\ test_amount (strip s) = false)
  /\ (Harness.convertToChequeFormat s = Harness.msg_format
      <-> strip s <> [] /\ test_amount (strip s) = false).
Proof.
  split.
  - destruct (Script_classify s)
      as [[E1 E2] | [(N & T & E) | (neg & ds & frac & A & W & E)]].
    + rewrite E2. split; [intro H; vm_compute in H; discriminate H|].
      intros [H _]. now destruct H.
    + now split.
    + rewrite E. destruct (Script_accepted_no_prompt neg _ _ W) as [_ X].
      split; [intro H; now destruct X|].
      intros [_ H]. rewrite A, (accepted_test neg _ _ W) in H. discriminate H.
  - destruct (Harness_classify s)
      as [[E1 E2] | [(N & T & E) | (neg & ds & frac & A & W & E)]].
    + rewrite E2. split; [intro H; vm_compute in H; discriminate H|].
      intros [H _]. now destruct H.
    + now split.
    + rewrite E. destruct (Harness_accepted_no_prompt neg _ _ W) as [_ X].
      split; [intro H; now destruct X|].
      intros [_ H]. rewrite A, (accepted_test neg _ _ W) in H. discriminate H.
Qed.

(** X11. On an input the pattern accepts, the script answers 零圓整
    exactly when the amount is zero, with or without a minus sign: no
    other amount is written 零圓整. *)
Theorem zero_answer_exactly (s : str) (neg : bool) (ds : str) (frac : option str) :
  strip s = amount_text neg ds frac ->
  well_formed ds frac ->
  (Script.convertToChequeFormat s = Script.msg_zero
   <-> amount_hundredths ds frac = 0).
Proof.
  intros A W. pose proof (amount_hundredths_nonneg _ _ W) as P.
  rewrite Script_convert_strip, A.
  destruct neg.
  - rewrite (Script_convert_accepted _ _ _ W). cbv zeta. cbn [negb andb].
    destruct (Z.ltb_spec 0 (amount_hundredths ds frac)) as [L|L].
    + split; [intro H; vm_compute in H; discriminate H | lia].
    + destruct (Z.eqb_spec (amount_hundredths ds frac) 0); [now split | lia].
  - destruct (Z.ltb_spec Script.max_hundredths (amount_hundredths ds frac))
      as [L|L].
    + rewrite (Script_convert_accepted _ _ _ W). cbv zeta. cbn [negb andb].
      destruct (Z.ltb_spec Script.max_hundredths (amount_hundredths ds frac))
        as [_|C]; [|lia].
      split; [intro H; vm_compute in H; discriminate H|].
      unfold Script.max_hundredths in L. lia.
    + split.
      * intro H. apply (f_equal read_hundredths) in H.
        rewrite Script_read_back in H by assumption. exact H.
      * intro H. rewrite (Script_convert_accepted _ _ _ W). cbv zeta.
        cbn [negb andb]. rewrite H. reflexivity.
Qed.

(** X12. A comma or a white-space unit may stand anywhere in the input,
    also between two digits or after the dot: taking it out changes the
    answer of neither copy. *)
Theorem separators_ignored (a b : str) (c : N) :
  (c =? c_comma)%N || is_space c = true ->
  Script.convertToChequeFormat (a ++ c :: b)
  = Script.convertToChequeFormat (a ++ b)
  /\ Harness.convertToChequeFormat (a ++ c :: b)
     = Harness.convertToChequeFormat (a ++ b).
Proof.
  intro H.
  assert (E : strip (a ++ c :: b) = strip (a ++ b)).
  { unfold strip. rewrite !filter_app. cbn [filter]. now rewrite H. }
  split.
  - now rewrite (Script_convert_strip (a ++ c :: b)), E, <- Script_convert_strip.
  - now rewrite (Harness_convert_strip (a ++ c :: b)), E,
      <- Harness_convert_strip.
Qed.

(** ** Other spellings of the same amount *)

Lemma well_formed_zero ds frac :
  well_formed ds frac -> well_formed (c_0 :: ds) frac.
Proof. intros (T & D & F). repeat split; [now cbn; rewrite D | exact F]. Qed.

Lemma digits_val_zero ds : digits_val (c_0 :: ds) = digits_val ds.
Proof. rewrite digits_val_cons. change (digit_val c_0) with 0. lia. Qed.

(** X13. One more zero in front of the integer digits of an accepted
    input changes the answer of neither copy ("007" is converted as
    "7"). *)
Theorem leading_zero_ignored (s : str) (neg : bool) (ds : str) (frac : option str) :
  strip s = amount_text neg ds frac ->
  well_formed ds frac ->
  Script.convertToChequeFormat (amount_text neg (c_0 :: ds) frac)
  = Script.convertToChequeFormat s
  /\ Harness.convertToChequeFormat (amount_text neg (c_0 :: ds) frac)
     = Harness.convertToChequeFormat s.
Proof.
  intros A W. pose proof (well_formed_zero _ _ W) as W0.
  assert (E : amount_hundredths (c_0 :: ds) frac = amount_hundredths ds frac)
    by (unfold amount_hundredths; now rewrite digits_val_zero).
  split.
  - rewrite (Script_convert_strip s), A.
    rewrite (Script_convert_accepted _ _ _ W), (Script_convert_accepted _ _ _ W0).
    cbv zeta. now rewrite E, digits_val_zero.
  - rewrite (Harness_convert_strip s), A.
    rewrite (Harness_convert_accepted _ _ _ W),
      (Harness_convert_accepted _ _ _ W0).
    cbv zeta. now rewrite E, digits_val_zero.
Qed.

(** X14. In both copies a dot followed by nothing counts as no
    fractional part ("12." is converted as "12"), and one fractional
    digit counts as that digit followed by 0 ("12.5" as "12.50"). *)
Theorem fraction_padding (neg : bool) (ds : str) (j : N) :
  well_formed ds None -> is_digit j = true ->
  (Script.convertToChequeFormat (amount_text neg ds (Some []))
   = Script.convertToChequeFormat (amount_text neg ds None)
   /\ Script.convertToChequeFormat (amount_text neg ds (Some [j]))
      = Script.convertToChequeFormat (amount_text neg ds (Some [j; c_0])))
  /\ (Harness.convertToChequeFormat (amount_text neg ds (Some []))
      = Harness.convertToChequeFormat (amount_text neg ds None)
      /\ Harness.convertToChequeFormat (amount_text neg ds (Some [j]))
         = Harness.convertToChequeFormat (amount_text neg ds (Some [j; c_0]))).
Proof.
  intros W J. destruct W as (T & D & _).
  assert (W0 : well_formed ds None) by now repeat split.
  assert (W1 : well_formed ds (Some [])) by (repeat split; try assumption; cbn; lia).
  assert (W2 : well_formed ds (Some [j]))
    by (repeat split; try assumption; cbn; [now rewrite J | lia]).
  assert (W3 : well_formed ds (Some [j; c_0]))
    by (repeat split; try assumption; cbn; [now rewrite J | lia]).
  assert (E1 : amount_hundredths ds (Some []) = amount_hundredths ds None)
    by reflexivity.
  assert (E2 : amount_hundredths ds (Some [j])
               = amount_hundredths ds (Some [j; c_0])).
  { unfold amount_hundredths, frac_val. change (digit_val c_0) with 0. lia. }
  repeat split.
  - now rewrite (Script_convert_accepted _ _ _ W1),
      (Script_convert_accepted _ _ _ W0).
  - rewrite (Script_convert_accepted _ _ _ W2),
      (Script_convert_accepted _ _ _ W3). cbv zeta. now rewrite E2.
  - now rewrite (Harness_convert_accepted _ _ _ W1),
      (Harness_convert_accepted _ _ _ W0).
  - rewrite (Harness_convert_accepted _ _ _ W2),
      (Harness_convert_accepted _ _ _ W3). cbv zeta. now rewrite E2.
Qed.

(** ** The two copies side by side *)

Lemma as_harness_app a b : as_harness (a ++ b) = as_harness a ++ as_harness b.
Proof. apply map_app. Qed.

Lemma as_harness_truthy s : truthy (as_harness s) = truthy s.
Proof. now destruct s. Qed.

Lemma Harness_digitMap_as c :
  Harness.digitMap c = as_harness (Script.digitMap c).
Proof.
  destruct c as [|p]; [reflexivity|].
  do 6 (destruct p as [p|p|]; try reflexivity).
Qed.

Lemma as_harness_units k : as_harness (units k) = units k.
Proof. do 4 (destruct k as [|k]; [reflexivity|]). reflexivity. Qed.

Lemma as_harness_bigUnits k : as_harness (bigUnits k) = bigUnits k.
Proof. do 4 (destruct k as [|k]; [reflexivity|]). reflexivity. Qed.

Lemma section_loop_as rest :
  forall result zeroFlag,
    section_loop Harness.digitMap rest (as_harness result) zeroFlag
    = as_harness (section_loop Script.digitMap rest result zeroFlag).
Proof.
  induction rest as [|c rest IH]; intros result zeroFlag; [reflexivity|].
  cbn [section_loop]. destruct (c =? c_0)%N; [apply IH|].
  rewrite <- IH. f_equal.
  rewrite !as_harness_app, Harness_digitMap_as, as_harness_units,
    as_harness_truthy.
  destruct (zeroFlag && truthy result); [|reflexivity].
  now rewrite as_harness_app.
Qed.

Lemma convertSection_as (num : Z) :
  Harness.convertSection num = as_harness (Script.convertSection num).
Proof.
  unfold Harness.convertSection, Script.convertSection, convertSection_with.
  destruct (num =? 0); [reflexivity|].
  exact (section_loop_as (toString num) [] false).
Qed.

Lemma as_harness_length s : List.length (as_harness s) = List.length s.
Proof. apply length_map. Qed.

Lemma piece_as k g higher :
  0 < g \/ higher = false \/ k = 0%nat ->
  Harness_piece k g higher = as_harness (Script_piece k g higher).
Proof.
  intro C. unfold Harness_piece, Script_piece.
  destruct (Z.ltb_spec 0 g) as [P|P].
  - rewrite !as_harness_app, convertSection_as, as_harness_bigUnits.
    now destruct (higher && _).
  - destruct C as [C | [-> | ->]]; [lia | reflexivity | now destruct higher].
Qed.

Lemma convertInteger_as (v : Z) :
  0 <= v <= 999999999999 ->
  (Harness.convertInteger v = as_harness (Script.convertInteger v)
   <-> (v / 10000) mod 10000 <> 0 \/ v / 100000000 = 0).
Proof.
  intro R. destruct (Z.eq_dec v 0) as [->|NZ].
  - split; [intros _; now right | reflexivity].
  - rewrite Harness_three_groups, Script_three_groups by lia.
    assert (B2 : 0 <= v / 100000000 < 10000).
    { split; [apply Z.div_pos; lia | apply Z.div_lt_upper_bound; lia]. }
    pose proof (Z.mod_pos_bound (v / 10000) 10000 ltac:(lia)) as M1.
    rewrite !as_harness_app.
    rewrite (piece_as 2) by (right; now left).
    rewrite (piece_as 0) by (right; now right).
    split.
    + intro E. apply app_inv_head in E. apply app_inv_tail in E.
      destruct (Z.eq_dec ((v / 10000) mod 10000) 0) as [G1|G1]; [|now left].
      right. destruct (Z.eq_dec (v / 100000000) 0) as [G2|G2]; [exact G2|].
      exfalso. revert E. unfold Harness_piece, Script_piece. rewrite G1.
      change (0 <? 0) with false. cbv iota.
      destruct (Z.ltb_spec 0 (v / 100000000)); [discriminate | lia].
    + intro C. rewrite (piece_as 1); [reflexivity|].
      destruct C as [C | C]; [left; lia | right; left; now rewrite C].
Qed.

Lemma Harness_fraction_text_two j f :
  Harness.fraction_text [j; f]
  = if (j =? c_0)%N && (f =? c_0)%N then [zheng]
    else if negb (j =? c_0)%N then
      Harness.digitMap j ++ [jiaoU]
        ++ (if negb (f =? c_0)%N then Harness.digitMap f ++ [fenU] else [])
    else
      if negb (f =? c_0)%N then [ling] ++ Harness.digitMap f ++ [fenU] else [].
Proof. reflexivity. Qed.

Lemma Harness_fraction_text_one j :
  Harness.fraction_text [j] = Harness.fraction_text [j; c_0].
Proof. reflexivity. Qed.

Lemma fraction_two_as j f :
  (j =? c_0)%N && (f =? c_0)%N = false ->
  Harness.fraction_text [j; f] = as_harness (Script.fraction_text [j; f]).
Proof.
  intro H. rewrite Harness_fraction_text_two, fraction_text_two, H.
  rewrite !Harness_digitMap_as.
  destruct (j =? c_0)%N, (f =? c_0)%N; cbn [negb andb] in *;
    try discriminate; now rewrite ?as_harness_app.
Qed.

Lemma fraction_as frac :
  match frac with
  | Some fr => forallb is_digit fr = true /\ (List.length fr <= 2)%nat
  | None => True
  end ->
  frac_val frac <> 0 \/ frac_digits frac = [] ->
  Harness.fraction_text (frac_digits frac)
  = as_harness (Script.fraction_text (frac_digits frac)).
Proof.
  destruct frac as [[|j [|f [|x fr]]]|]; cbn [frac_digits]; intros H C;
    try reflexivity.
  - destruct C as [C | C]; [|discriminate].
    rewrite Harness_fraction_text_one, fraction_text_one.
    apply fraction_two_as. apply andb_false_iff. left.
    apply N.eqb_neq. intros ->. now apply C.
  - destruct C as [C | C]; [|discriminate].
    apply fraction_two_as.
    destruct (j =? c_0)%N eqn:J, (f =? c_0)%N eqn:K; try reflexivity.
    apply N.eqb_eq in J, K. subst. now destruct C.
  - destruct H as [_ H]. cbn in H. lia.
Qed.

(** X17. On every accepted input whose amount is below 100000 and whose
    fractional part is absent, empty or not zero, the harness returns
    what the script returns, with 參 for 叁. *)
Theorem copies_agree (s : str) (neg : bool) (ds : str) (frac : option str) :
  strip s = amount_text neg ds frac ->
  well_formed ds frac ->
  amount_hundredths ds frac < 10000000 ->
  frac_val frac <> 0 \/ frac_digits frac = [] ->
  Harness.convertToChequeFormat s
  = as_harness (Script.convertToChequeFormat s).
Proof.
  intros A W L C.
  pose proof (frac_val_range _ (well_formed_frac _ _ W)) as FR.
  pose proof W as (_ & D & F). apply digits_val_nonneg in D.
  rewrite Harness_convert_strip, Script_convert_strip, A.
  rewrite (Harness_convert_accepted _ _ _ W), (Script_convert_accepted _ _ _ W).
  cbv zeta. destruct (neg && _); [reflexivity|].
  unfold Harness.limit_hundredths, Script.max_hundredths.
  destruct (Z.leb_spec 10000000 (amount_hundredths ds frac)) as [X|_]; [lia|].
  destruct (Z.ltb_spec 99999999999999 (amount_hundredths ds frac))
    as [X|_]; [lia|].
  rewrite !andb_false_r.
  destruct (_ =? 0); [reflexivity|].
  unfold amount_hundredths in L.
  rewrite !as_harness_app. f_equal; [|f_equal].
  - apply convertInteger_as; [lia|]. right. apply Z.div_small. lia.
  - apply fraction_as; [now destruct frac | exact C].
Qed.

(** ** The harness's fixture *)

Lemma skip_space_incl c s : In c (skip_space s) -> In c s.
Proof.
  induction s as [|x s IH]; [easy|]. cbn [skip_space].
  destruct (is_space x); [|easy]. intro H. right. now apply IH.
Qed.

Lemma trim_incl c s : In c (trim s) -> In c s.
Proof.
  unfold trim. intro H. apply in_rev in H. apply skip_space_incl in H.
  apply in_rev in H. now apply skip_space_incl in H.
Qed.

Lemma skip_space_first s : is_space (first_unit (skip_space s)) = false.
Proof.
  induction s as [|x s IH]; [reflexivity|]. cbn [skip_space].
  destruct (is_space x) eqn:E; [exact IH | exact E].
Qed.

Lemma skip_space_fixed s :
  is_space (first_unit s) = false -> skip_space s = s.
Proof.
  destruct s as [|x s]; [reflexivity|]. cbn [skip_space first_unit hd].
  now intros ->.
Qed.

Lemma skip_space_suffix s : exists p, s = p ++ skip_space s.
Proof.
  induction s as [|x s [p IH]]; [now exists []|]. cbn [skip_space].
  destruct (is_space x); [|now exists []].
  exists (x :: p). cbn. now rewrite <- IH.
Qed.

Lemma first_unit_rev_suffix (p u : str) :
  truthy u = true -> first_unit (rev (p ++ u)) = first_unit (rev u).
Proof.
  intro T. rewrite rev_app_distr.
  destruct (rev u) as [|x r] eqn:E; [|reflexivity].
  apply (f_equal (@rev N)) in E. rewrite rev_involutive in E.
  subst u. discriminate T.
Qed.

(** A trimmed string starts and ends with no white space: trimming it
    again changes nothing. *)
Lemma trim_trim s : trim (trim s) = trim s.
Proof.
  unfold trim. set (t := skip_space s).
  set (u := skip_space (rev t)).
  assert (F : skip_space (rev u) = rev u).
  { apply skip_space_fixed. destruct u as [|x u'] eqn:E; [reflexivity|].
    destruct (skip_space_suffix (rev t)) as [p Hp]. fold u in Hp.
    rewrite E in Hp. rewrite <- E in *.
    assert (R : t = rev u ++ rev p).
    { rewrite <- (rev_involutive t), Hp, rev_app_distr. reflexivity. }
    assert (X : first_unit (rev u) = first_unit t).
    { rewrite R. destruct (rev u) as [|y r] eqn:Y; [|reflexivity].
      apply (f_equal (@rev N)) in Y. rewrite rev_involutive in Y.
      rewrite Y in E. discriminate E. }
    rewrite X. apply skip_space_first. }
  rewrite F, rev_involutive. f_equal.
  apply skip_space_fixed. apply skip_space_first.
Qed.

Lemma split_on_nonempty sep s : split_on sep s <> [].
Proof.
  destruct s as [|c t]; [discriminate|]. cbn [split_on].
  destruct (split_on sep t); [discriminate|].
  destruct (c =? sep)%N; discriminate.
Qed.

Lemma split_on_free sep s part :
  In part (split_on sep s) -> ~ In sep part.
Proof.
  revert part. induction s as [|c t IH]; intros part H.
  - cbn in H. destruct H as [<- | []]. easy.
  - cbn [split_on] in H.
    destruct (split_on sep t) as [|p ps] eqn:E;
      [now destruct (split_on_nonempty sep t)|].
    destruct (N.eqb_spec c sep) as [->|NE].
    + destruct H as [<- | H]; [easy | now apply IH].
    + destruct H as [<- | H].
      * intros [X | X]; [congruence|]. now apply (IH p); [left|].
      * apply IH. now right.
Qed.

Lemma split_on_incl sep s part c :
  In part (split_on sep s) -> In c part -> In c s.
Proof.
  revert part. induction s as [|x t IH]; intros part H I.
  - cbn in H. destruct H as [<- | []]. easy.
  - cbn [split_on] in H.
    destruct (split_on sep t) as [|p ps] eqn:E;
      [now destruct (split_on_nonempty sep t)|].
    destruct (x =? sep)%N.
    + destruct H as [<- | H]; [easy|]. right. now apply (IH part).
    + destruct H as [<- | H].
      * destruct I as [<- | I]; [now left|]. right. apply (IH p); [now left | exact I].
      * right. apply (IH part); [now right | exact I].
Qed.

Lemma nth_split_on_free sep s i : ~ In sep (nth i (split_on sep s) []).
Proof.
  destruct (nth_in_or_default i (split_on sep s) []) as [H | ->]; [|easy].
  now apply (split_on_free sep s).
Qed.

Lemma nth_split_on_incl sep s i c :
  In c (nth i (split_on sep s) []) -> In c s.
Proof.
  destruct (nth_in_or_default i (split_on sep s) []) as [H | ->]; [|easy].
  now apply (split_on_incl sep).
Qed.

Lemma parseCSV_loop_clean lines :
  (forall raw, In raw lines -> ~ In c_newline raw) ->
  forall tc, In tc (Harness.parseCSV_loop lines) ->
    clean_field (Harness.input tc) /\ clean_field (Harness.expected tc).
Proof.
  induction lines as [|raw rest IH]; intros NL tc H; [easy|].
  cbn [Harness.parseCSV_loop] in H.
  assert (NL' : forall r, In r rest -> ~ In c_newline r)
    by (intros r I; apply NL; now right).
  destruct (negb (truthy (trim raw))); [now apply IH|].
  destruct (2 <=? _)%nat; [|now apply IH].
  destruct H as [<- | H]; [|now apply IH].
  cbn [Harness.input Harness.expected].
  assert (F : forall i, clean_field (trim (nth i (split_on c_comma (trim raw)) []))).
  { intro i. repeat split.
    - intro I. apply trim_incl in I. now apply nth_split_on_free in I.
    - intro I. apply trim_incl, nth_split_on_incl, trim_incl in I.
      apply (NL raw); [now left | exact I].
    - apply trim_trim. }
  split; apply F.
Qed.

(** X18. Whatever the content of the fixture, the two fields of every
    case [parseCSV] returns hold no comma and no line feed and are
    trimmed: a row whose amount is written with a thousands separator
    is cut at that comma. *)
Theorem parseCSV_fields_clean (content : str) (tc : Harness.testCase) :
  In tc (Harness.parseCSV content) ->
  clean_field (Harness.input tc) /\ clean_field (Harness.expected tc).
Proof.
  unfold Harness.parseCSV. apply parseCSV_loop_clean.
  intros raw I. apply (split_on_free c_newline (trim content)).
  destruct (split_on c_newline (trim content)); [easy | now right].
Qed.

Lemma forallb_rev_eq (f : N -> bool) l : forallb f (rev l) = forallb f l.
Proof.
  induction l as [|x l IH]; [reflexivity|]. cbn [rev forallb].
  rewrite forallb_app, IH. cbn [forallb]. rewrite andb_true_r. apply andb_comm.
Qed.

Lemma skip_space_app x y :
  skip_space (x ++ y)
  = if forallb is_space x then skip_space y else skip_space x ++ y.
Proof.
  induction x as [|c x IH]; [reflexivity|]. cbn [app skip_space forallb].
  destruct (is_space c); [exact IH | reflexivity].
Qed.

Lemma trim_end_app a b :
  trim_end (a ++ b)
  = if forallb is_space b then trim_end a else a ++ trim_end b.
Proof.
  unfold trim_end. rewrite rev_app_distr, skip_space_app, forallb_rev_eq.
  destruct (forallb is_space b); [reflexivity|].
  now rewrite rev_app_distr, rev_involutive.
Qed.

Lemma skip_space_all s : forallb is_space s = true -> skip_space s = [].
Proof.
  induction s as [|c s IH]; [reflexivity|]. cbn [forallb skip_space].
  intro H. apply andb_true_iff in H as [H1 H2]. now rewrite H1, IH.
Qed.

Lemma trim_end_all s : forallb is_space s = true -> trim_end s = [].
Proof.
  intro H. unfold trim_end. rewrite skip_space_all; [reflexivity|].
  now rewrite forallb_rev_eq.
Qed.

Lemma split_on_whole sep s : ~ In sep s -> split_on sep s = [s].
Proof.
  induction s as [|c t IH]; [reflexivity|]. intro H. cbn [split_on].
  rewrite IH by (intro I; apply H; now right).
  destruct (N.eqb_spec c sep) as [->|_]; [|reflexivity].
  destruct H. now left.
Qed.

Lemma split_on_app sep a b :
  ~ In sep a -> split_on sep (a ++ sep :: b) = a :: split_on sep b.
Proof.
  induction a as [|c t IH]; intro H.
  - cbn [app split_on]. rewrite N.eqb_refl.
    destruct (split_on sep b) eqn:E; [|reflexivity].
    now destruct (split_on_nonempty sep b).
  - cbn [app split_on]. rewrite IH by (intro I; apply H; now right).
    destruct (N.eqb_spec c sep) as [->|_]; [|reflexivity].
    destruct H. now left.
Qed.

Lemma trim_end_incl c s : In c (trim_end s) -> In c s.
Proof.
  unfold trim_end. intro H. apply in_rev, skip_space_incl in H.
  now apply in_rev in H.
Qed.

(** The first line of the content gives no case, whatever it holds. *)
Lemma parseCSV_after_header h rest :
  truthy h = true -> is_space (first_unit h) = false -> ~ In c_newline h ->
  Harness.parseCSV (h ++ c_newline :: rest)
  = Harness.parseCSV_loop (split_on c_newline (trim_end rest)).
Proof.
  intros T F NL. unfold Harness.parseCSV.
  assert (E : trim (h ++ c_newline :: rest)
              = trim_end (h ++ c_newline :: rest)).
  { unfold trim. rewrite (skip_space_fixed (h ++ c_newline :: rest));
      [reflexivity|]. now destruct h. }
  rewrite E, trim_end_app.
  destruct (forallb is_space (c_newline :: rest)) eqn:A.
  - cbn [forallb] in A. apply andb_true_iff in A as [_ A].
    rewrite (trim_end_all _ A).
    rewrite split_on_whole
      by (intro I; apply NL; now apply trim_end_incl in I).
    reflexivity.
  - change (c_newline :: rest) with ([c_newline] ++ rest).
    rewrite trim_end_app.
    cbn [forallb] in A. change (is_space c_newline) with true in A.
    cbn [andb] in A. rewrite A. cbn [app].
    now rewrite split_on_app.
Qed.

(** X19. The first line of the fixture is a header: [parseCSV] returns
    the same cases whatever that line holds (it starts with no white
    space and is not empty). *)
Theorem header_line_skipped (h h' rest : str) :
  truthy h = true -> is_space (first_unit h) = false -> ~ In c_newline h ->
  truthy h' = true -> is_space (first_unit h') = false -> ~ In c_newline h' ->
  Harness.parseCSV (h ++ c_newline :: rest)
  = Harness.parseCSV (h' ++ c_newline :: rest).
Proof.
  intros. now rewrite !parseCSV_after_header.
Qed.

(** ** The harness's run *)

Lemma str_eqb_eq a b : str_eqb a b = true <-> a = b.
Proof.
  revert b. induction a as [|x a IH]; intros [|y b]; cbn [str_eqb];
    try easy.
  rewrite andb_true_iff, N.eqb_eq, IH. split; [intros [-> ->] | intro H];
    [reflexivity | now injection H].
Qed.

Lemma run_cases_tally cases :
  forall index t,
    let r := Harness.run_cases cases index t in
    (Harness.passed r + Harness.failed r
     = Harness.passed t + Harness.failed t + List.length cases)%nat
    /\ (List.length (Harness.failedCases r) + Harness.failed t
        = List.length (Harness.failedCases t) + Harness.failed r)%nat
    /\ (Harness.failed t <= Harness.failed r)%nat
    /\ (Harness.failed r = Harness.failed t <-> Forall case_passes cases).
Proof.
  induction cases as [|tc rest IH]; intros index t; cbv zeta.
  - cbn. repeat split; try lia. constructor.
  - cbn [Harness.run_cases List.length].
    destruct (str_eqb _ _) eqn:E.
    + apply str_eqb_eq in E.
      specialize (IH (S index)
        {| Harness.passed := S (Harness.passed t);
           Harness.failed := Harness.failed t;
           Harness.failedCases := Harness.failedCases t |}).
      cbv zeta in IH. cbn [Harness.passed Harness.failed Harness.failedCases] in IH.
      destruct IH as (A & B & C & D). repeat split; try lia.
      * intro H. constructor; [exact E | now apply D].
      * intro H. apply D. now inversion H.
    + assert (NE : ~ case_passes tc).
      { intro H. apply str_eqb_eq in H. unfold case_passes in *. congruence. }
      specialize (IH (S index)
        {| Harness.passed := Harness.passed t;
           Harness.failed := S (Harness.failed t);
           Harness.failedCases :=
             Harness.failedCases t
               ++ [{| Harness.index := index + 1;
                      Harness.failed_input := Harness.input tc;
                      Harness.failed_expected := Harness.expected tc;
                      Harness.actual :=
                        Harness.convertToChequeFormat (Harness.input tc) |}] |}).
      cbv zeta in IH. cbn [Harness.passed Harness.failed Harness.failedCases] in IH.
      rewrite length_app in IH. cbn [List.length] in IH.
      destruct IH as (A & B & C & D). repeat split; try lia.
      intro H. inversion H. contradiction.
Qed.

(** X20. In [runTests] the two counters add up to the number of cases,
    the list of failed cases has as many entries as the counter of
    failures says, and the exit code is 0 exactly when the harness's
    conversion of every case's input is the expected text. *)
Theorem runTests_tally (content : str) :
  let t := Harness.runTests content in
  (Harness.passed t + Harness.failed t
   = List.length (Harness.parseCSV content))%nat
  /\ List.length (Harness.failedCases t) = Harness.failed t
  /\ (Harness.exit_code t = 0 <-> Forall case_passes (Harness.parseCSV content)).
Proof.
  cbv zeta. unfold Harness.runTests.
  pose proof (run_cases_tally (Harness.parseCSV content) 0
                {| Harness.passed := 0; Harness.failed := 0;
                   Harness.failedCases := [] |}) as H.
  cbv zeta in H. cbn [Harness.passed Harness.failed Harness.failedCases List.length] in H.
  destruct H as (A & B & C & D). repeat split; try lia.
  - intro E. apply D. unfold Harness.exit_code in E.
    destruct (Nat.eqb_spec (Harness.failed (Harness.run_cases
      (Harness.parseCSV content) 0 {| Harness.passed := 0; Harness.failed := 0;
        Harness.failedCases := [] |})) 0); [assumption | discriminate].
  - intro F. apply D in F. unfold Harness.exit_code. now rewrite F.
Qed.

(** X21. A fixture without a line feed (a header only, or nothing) has
    no case, and the run over it ends with exit code 0. *)
Theorem fixture_without_rows (content : str) :
  ~ In c_newline content ->
  Harness.parseCSV content = []
  /\ Harness.exit_code (Harness.runTests content) = 0.
Proof.
  intro NL.
  assert (E : Harness.parseCSV content = []).
  { unfold Harness.parseCSV. rewrite split_on_whole; [reflexivity|].
    intro I. now apply trim_incl in I. }
  split; [exact E|]. unfold Harness.runTests. now rewrite E.
Qed.

(** ** What the two copies of [convertInteger] write *)

(** X1. The script's [convertInteger] on an amount up to
    999,999,999,999 writes its three groups one after the other, the
    most significant first: a group that is not zero as an optional 零
    (when the group is below 1000 under a non-zero group), its
    [convertSection] text and its unit; a zero group under a non-zero
    group as its bare unit, so that a zero second group leaves a 萬
    behind. *)
Theorem script_groups_text (v : Z) :
  0 < v <= 999999999999 ->
  Script.convertInteger v
  = Script_piece 2 (v / 100000000) false
      ++ Script_piece 1 ((v / 10000) mod 10000) (0 <? v / 100000000)
      ++ Script_piece 0 (v mod 10000) (0 <? v / 10000).
Proof. exact (Script_three_groups v). Qed.

Lemma script_groups_text_witness :
  Script.convertInteger 100000001 = lit "壹億" ++ lit "萬" ++ lit "零壹"
  /\ Script.convertInteger 20300 = [] ++ lit "貳萬" ++ lit "零叁佰".
Proof.
  split.
  - refine (script_groups_text 100000001 _). vm_compute. split; congruence.
  - refine (script_groups_text 20300 _). vm_compute. split; congruence.
Defined.

(** X2. The harness's [convertInteger] on an amount up to
    999,999,999,999 writes its three groups one after the other: a group
    that is not zero as in the script, a zero group as nothing at all;
    the doubled 零 its loop can append is brought back to one. *)
Theorem harness_groups_text (v : Z) :
  0 < v <= 999999999999 ->
  Harness.convertInteger v
  = Harness_piece 2 (v / 100000000) false
      ++ Harness_piece 1 ((v / 10000) mod 10000) (0 <? v / 100000000)
      ++ Harness_piece 0 (v mod 10000) (0 <? v / 10000).
Proof. exact (Harness_three_groups v). Qed.

Lemma harness_groups_text_witness :
  Harness.convertInteger 100000001 = lit "壹億" ++ [] ++ lit "零壹"
  /\ Harness.convertInteger 20300 = [] ++ lit "貳萬" ++ lit "零參佰".
Proof.
  split.
  - refine (harness_groups_text 100000001 _). vm_compute. split; congruence.
  - refine (harness_groups_text 20300 _). vm_compute. split; congruence.
Defined.

(** X3. In the script the three replacements that end [convertInteger]
    never change anything: on every positive integer (up to 2^53 - 1,
    where the arithmetic of the loop is exact) the string the loop has
    built is already free of doubled 零, of 零 before 萬 or 億 and of a
    final 零, and it is the result. *)
Theorem script_replacements_idle (num : Z) :
  0 < num <= 9007199254740991 ->
  let raw := Script.integer_loop (S (Z.to_nat (Z.log2 num))) num 0 [] in
  cleanup raw = raw /\ Script.convertInteger num = raw.
Proof.
  intros R raw. split; [|apply Script_convertInteger_raw; lia].
  destruct (Script_loop_neat (S (Z.to_nat (Z.log2 num))) num 0 [] neat_nil)
    as (N1 & N2 & N3).
  now apply cleanup_fixed.
Qed.

Lemma script_replacements_idle_witness :
  cleanup (lit "壹億萬零壹") = lit "壹億萬零壹"
  /\ Script.convertInteger 100000001 = lit "壹億萬零壹".
Proof.
  refine (script_replacements_idle 100000001 _). vm_compute. split; congruence.
Defined.

(** X4. The script's text of an accepted amount can be read back: going
    through the text once, adding up digit glyphs by their units, gives
    the amount in hundredths, for every input without minus sign up to
    999,999,999,999.99. *)
Theorem amount_read_back (s ds : str) (frac : option str) :
  strip s = amount_text false ds frac ->
  well_formed ds frac ->
  amount_hundredths ds frac <= 99999999999999 ->
  read_hundredths (Script.convertToChequeFormat s) = amount_hundredths ds frac.
Proof.
  intros A W B. rewrite Script_convert_strip, A. now apply Script_read_back.
Qed.

Lemma amount_read_back_witness :
  read_hundredths (Script.convertToChequeFormat (lit "100,000,001.05"))
  = 10000000105.
Proof.
  assert (E : strip (lit "100,000,001.05")
              = amount_text false (lit "100000001") (Some (lit "05")))
    by (vm_compute; reflexivity).
  assert (W : well_formed (lit "100000001") (Some (lit "05")))
    by (unfold well_formed; repeat split; vm_compute; (reflexivity || lia)).
  refine (amount_read_back _ _ _ E W _). vm_compute. congruence.
Defined.

(** X5. The script's [convertSection] gives different texts to different
    groups from 1 to 9999. *)
Theorem section_text_injective (g h : Z) :
  0 < g < 10000 -> 0 < h < 10000 ->
  Script.convertSection g = Script.convertSection h -> g = h.
Proof.
  intros G H E.
  destruct (read_section 0 g G) as (a & c & R1 & S1).
  destruct (read_section 0 h H) as (a' & c' & R2 & S2).
  rewrite E, R2 in R1. injection R1 as <- <-. lia.
Qed.

Lemma section_text_injective_witness :
  Script.convertSection 1010 <> Script.convertSection 1001.
Proof.
  intro E.
  refine (_ (section_text_injective 1010 1001 _ _ E)); vm_compute;
    [congruence | split; congruence | split; congruence].
Defined.

(** X6. Whatever the input, the script returns one of its four messages
    請輸入金額, 輸入格式錯誤…, 不支持負數, 金額過大…, or a text made only
    of the glyphs of a cheque amount: it never writes 兆, and never the
    word undefined of a table read out of range. *)
Theorem script_answers (s : str) :
  Script.convertToChequeFormat s = Script.msg_empty
  \/ Script.convertToChequeFormat s = Script.msg_format
  \/ Script.convertToChequeFormat s = Script.msg_negative
  \/ Script.convertToChequeFormat s = Script.msg_too_large
  \/ glyphs_only (Script.convertToChequeFormat s) = true.
Proof. exact (Script_output_cases s). Qed.

(** X15. The two copies of [convertSection] differ by the glyph of 3
    only: on every number the harness writes what the script writes,
    with 參 for 叁. *)
Theorem sections_agree (num : Z) :
  Harness.convertSection num = as_harness (Script.convertSection num).
Proof. exact (convertSection_as num). Qed.

(** X16. On an amount up to 999,999,999,999 the two copies of
    [convertInteger] agree (up to the glyph of 3) exactly when the amount
    has no zero second group under a non-zero third group. *)
Theorem integers_agree (v : Z) :
  0 <= v <= 999999999999 ->
  (Harness.convertInteger v = as_harness (Script.convertInteger v)
   <-> (v / 10000) mod 10000 <> 0 \/ v / 100000000 = 0).
Proof. exact (convertInteger_as v). Qed.

Lemma integers_agree_witness :
  Harness.convertInteger 30003 = as_harness (Script.convertInteger 30003)
  /\ Harness.convertInteger 100000000
     <> as_harness (Script.convertInteger 100000000).
Proof.
  split.
  - refine (proj2 (integers_agree 30003 _) _); vm_compute;
      [split; congruence | left; congruence].
  - intro E.
    refine (_ (proj1 (integers_agree 100000000 _) E));
      vm_compute; [intros [H | H]; congruence | split; congruence].
Defined.

(** ** Instances *)

Lemma zero_answer_exactly_witness :
  Script.convertToChequeFormat (lit "-0.00") = Script.msg_zero
  /\ Script.convertToChequeFormat (lit "0.01") <> Script.msg_zero.
Proof.
  split.
  - assert (E : strip (lit "-0.00") = amount_text true (lit "0") (Some (lit "00")))
      by (vm_compute; reflexivity).
    assert (W : well_formed (lit "0") (Some (lit "00")))
      by (unfold well_formed; repeat split; vm_compute; (reflexivity || lia)).
    apply (proj2 (zero_answer_exactly _ _ _ _ E W)). vm_compute. reflexivity.
  - assert (E : strip (lit "0.01") = amount_text false (lit "0") (Some (lit "01")))
      by (vm_compute; reflexivity).
    assert (W : well_formed (lit "0") (Some (lit "01")))
      by (unfold well_formed; repeat split; vm_compute; (reflexivity || lia)).
    intro H. apply (proj1 (zero_answer_exactly _ _ _ _ E W)) in H.
    vm_compute in H. discriminate H.
Defined.

Lemma separators_ignored_witness :
  Script.convertToChequeFormat (lit "1,234.5 0")
  = Script.convertToChequeFormat (lit "1,234.50").
Proof.
  assert (H : (32 =? c_comma)%N || is_space 32 = true) by reflexivity.
  exact (proj1 (separators_ignored (lit "1,234.5") (lit "0") 32%N H)).
Defined.

Lemma leading_zero_ignored_witness :
  Script.convertToChequeFormat (amount_text false (c_0 :: lit "07") None)
  = Script.convertToChequeFormat (lit " 07").
Proof.
  assert (E : strip (lit " 07") = amount_text false (lit "07") None)
    by (vm_compute; reflexivity).
  assert (W : well_formed (lit "07") None)
    by (unfold well_formed; repeat split; vm_compute; reflexivity).
  exact (proj1 (leading_zero_ignored _ _ _ _ E W)).
Defined.

Lemma fraction_padding_witness :
  Harness.convertToChequeFormat (amount_text false (lit "12") (Some [53%N]))
  = Harness.convertToChequeFormat (amount_text false (lit "12") (Some [53%N; c_0])).
Proof.
  assert (W : well_formed (lit "12") None)
    by (unfold well_formed; repeat split; vm_compute; reflexivity).
  assert (J : is_digit 53 = true) by reflexivity.
  exact (proj2 (proj2 (fraction_padding false _ 53%N W J))).
Defined.

Lemma copies_agree_witness :
  Harness.convertToChequeFormat (lit "30,003.30")
  = as_harness (Script.convertToChequeFormat (lit "30,003.30")).
Proof.
  assert (E : strip (lit "30,003.30")
              = amount_text false (lit "30003") (Some (lit "30")))
    by (vm_compute; reflexivity).
  assert (W : well_formed (lit "30003") (Some (lit "30")))
    by (unfold well_formed; repeat split; vm_compute; (reflexivity || lia)).
  refine (copies_agree _ _ _ _ E W _ _); vm_compute;
    [reflexivity | left; congruence].
Defined.

Lemma parseCSV_fields_clean_witness :
  clean_field (lit "1") /\ clean_field (lit "234").
Proof.
  assert (I : In {| Harness.input := lit "1"; Harness.expected := lit "234" |}
                (Harness.parseCSV
                   (lit "a,b" ++ [c_newline] ++ lit " 1,234 ,x")))
    by (vm_compute; now left).
  exact (parseCSV_fields_clean _ _ I).
Defined.

Lemma header_line_skipped_witness :
  Harness.parseCSV (lit "input,expected" ++ c_newline :: lit "5,x")
  = Harness.parseCSV (lit "#" ++ c_newline :: lit "5,x").
Proof.
  refine (header_line_skipped (lit "input,expected") (lit "#") (lit "5,x")
            _ _ _ _ _ _);
    vm_compute; try reflexivity; intuition congruence.
Defined.

Lemma fixture_without_rows_witness :
  Harness.parseCSV (lit "input,expected") = []
  /\ Harness.exit_code (Harness.runTests (lit "input,expected")) = 0.
Proof.
  refine (fixture_without_rows (lit "input,expected") _).
  vm_compute. intuition congruence.
Defined.
